(** * FDTD simulator (src/simulator.ts): a shallow embedding and its properties

    The engine stores six field components and two material fields as nested
    JavaScript arrays [field[x][y][z]], updates them by six per-cell stencil
    kernels run on a parallel backend, and reindexes every kernel result with
    [copyScalarFieldReverse].

    Conventions of the embedding.
    - A JavaScript [number] that holds a field value, a time or a step size is
      a rational [Qc] and arithmetic is exact: rounding, overflow, infinities
      and NaN are outside the model.  Division is faithful for a divisor
      different from zero only, so every statement that depends on a quotient
      assumes [cellSize <> 0].
    - Loop counters and array indices are [nat]; the grid dimensions handed to
      the constructor are integers of either sign ([Z]).
    - An array is a [list]; reading past its end yields [None].
    - A call that throws is a [Threw] outcome carrying the simulator as the
      exception left it. *)

From Stdlib Require Import ZArith QArith Qcanon Lia.
From stdpp Require Import base option list.

Local Open Scope nat_scope.

(** ** Numbers *)

Abbreviation num := Qc.

Definition num_of_Z (n : Z) : num := Q2Qc (inject_Z n).

(** ** Fields *)

Abbreviation Field3D T := (list (list (list T))).
Abbreviation ScalarField3D := (Field3D num).

(** [for (let i = 0; i < n; i++) acc.push(body(i))] on an empty [acc]. *)
Definition push_loop {T : Type} (n : nat) (body : nat -> T) : list T :=
  body <$> seq 0 n.

(** Number of iterations of [for (let i = 0; i < bound; i++)] for an integer
    [bound]: none when [bound <= 0]. *)
Definition trips (bound : Z) : nat := Z.to_nat bound.

Definition makeField3D {T : Type} (shape : Z * Z * Z)
    (getValue : nat * nat * nat -> T) : Field3D T :=
  let '(s0, s1, s2) := shape in
  push_loop (trips s0) (fun x =>
    push_loop (trips s1) (fun y =>
      push_loop (trips s2) (fun z => getValue (x, y, z)))).

(** [field[x][y][z]]; [None] when one of the three indices is out of range. *)
Definition get3 {T : Type} (field : Field3D T) (x y z : nat) : option T :=
  row ← field !! x; d ← row !! y; d !! z.

(** [field[x][y][z] = v] on a cell that exists; [None] otherwise (a missing
    row throws, a missing cell would make the array sparse). *)
Definition set3 {T : Type} (field : Field3D T) (x y z : nat) (v : T)
    : option (Field3D T) :=
  row ← field !! x; d ← row !! y; _ ← d !! z;
  Some (<[x := <[y := <[z := v]> d]> row]> field).

(** Every plane has [b] rows and every row has [c] cells, in [a] planes. *)
Definition has_shape {T : Type} (field : Field3D T) (a b c : nat) : Prop :=
  length field = a /\
  Forall (fun row => length row = b /\ Forall (fun d => length d = c) row) field.

(** The array that three nested push loops build. *)
Definition grid3 {T : Type} (a b c : nat) (g : nat -> nat -> nat -> T)
    : Field3D T :=
  push_loop a (fun i => push_loop b (fun j => push_loop c (fun k => g i j k))).

(** ** Simulation state *)

Record SimulationData : Type := mkData {
  time : num;
  electricFieldX : ScalarField3D;
  electricFieldY : ScalarField3D;
  electricFieldZ : ScalarField3D;
  magneticFieldX : ScalarField3D;
  magneticFieldY : ScalarField3D;
  magneticFieldZ : ScalarField3D;
  permittivity : ScalarField3D;
  permeability : ScalarField3D
}.

(** The simulator object: its data and what the six kernels captured when they
    were created ([output: gridSize], [constants: { cellSize }]). *)
Record FDTDSimulator : Type := mkSim {
  data : SimulationData;
  gridSize : Z * Z * Z;
  cellSize : num
}.

Definition zeroField (shape : Z * Z * Z) : ScalarField3D :=
  makeField3D shape (fun _ => 0%Qc).

(** The object the constructor body builds. *)
Definition initial (gridSize : Z * Z * Z) (cellSize : num) : FDTDSimulator :=
  {| data := {| time := 0%Qc;
                electricFieldX := makeField3D gridSize (fun _ => 0%Qc);
                electricFieldY := makeField3D gridSize (fun _ => 0%Qc);
                electricFieldZ := makeField3D gridSize (fun _ => 0%Qc);
                magneticFieldX := makeField3D gridSize (fun _ => 0%Qc);
                magneticFieldY := makeField3D gridSize (fun _ => 0%Qc);
                magneticFieldZ := makeField3D gridSize (fun _ => 0%Qc);
                permittivity := makeField3D gridSize (fun _ => 0%Qc);
                permeability := makeField3D gridSize (fun _ => 0%Qc) |};
     gridSize := gridSize;
     cellSize := cellSize |}.

(** [new FDTDSimulator(gridSize, cellSize)]: [Some] simulator when the
    constructor returns, [None] when it throws.  The body has no [throw] and
    no check of its arguments. *)
Definition FDTDSimulator_new (gridSize : Z * Z * Z) (cellSize : num)
    : option FDTDSimulator :=
  Some (initial gridSize cellSize).

(** What the specification calls a valid configuration. *)
Definition valid_config (gridSize : Z * Z * Z) (cellSize : num) : bool :=
  let '(s0, s1, s2) := gridSize in
  (0 <? s0)%Z && (0 <? s1)%Z && (0 <? s2)%Z &&
  match (0 ?= cellSize)%Qc with Lt => true | _ => false end.

(** The extent of the index space along each axis. *)
Definition dimX (sim : FDTDSimulator) : nat := trips (gridSize sim).1.1.
Definition dimY (sim : FDTDSimulator) : nat := trips (gridSize sim).1.2.
Definition dimZ (sim : FDTDSimulator) : nat := trips (gridSize sim).2.

(** The grid of a simulator is [(Nx, Ny, Nz)]. *)
Definition grid_is (sim : FDTDSimulator) (Nx Ny Nz : nat) : Prop :=
  gridSize sim = (Z.of_nat Nx, Z.of_nat Ny, Z.of_nat Nz).

(** All eight fields have the shape [(Nx, Ny, Nz)]. *)
Definition well_shaped (d : SimulationData) (Nx Ny Nz : nat) : Prop :=
  has_shape (electricFieldX d) Nx Ny Nz /\
  has_shape (electricFieldY d) Nx Ny Nz /\
  has_shape (electricFieldZ d) Nx Ny Nz /\
  has_shape (magneticFieldX d) Nx Ny Nz /\
  has_shape (magneticFieldY d) Nx Ny Nz /\
  has_shape (magneticFieldZ d) Nx Ny Nz /\
  has_shape (permittivity d) Nx Ny Nz /\
  has_shape (permeability d) Nx Ny Nz.

(** The fields of a simulator have the shape of its grid. *)
Definition shaped (sim : FDTDSimulator) : Prop :=
  well_shaped (data sim) (dimX sim) (dimY sim) (dimZ sim).

(** ** The layout adapter *)

(** [for (let i = start; i < start + count; i++) body(i)] over a state that
    the body may fail to produce. *)
Fixpoint for_loop {St : Type} (start count : nat)
    (body : nat -> St -> option St) (s : St) : option St :=
  match count with
  | O => Some s
  | S k => s' ← body start s; for_loop (S start) k body s'
  end.

(** [copyScalarFieldReverse]: [None] when the call throws.  The loop bounds
    are read from [field], [field[0]] and [field[0][0]], so an array without a
    first plane or a first row throws before anything is copied.  A read of a
    cell that a ragged input lacks is a failure as well ([undefined] is no
    number). *)
Definition copyScalarFieldReverse (field : ScalarField3D)
    : option ScalarField3D :=
  f0 ← field !! 0;
  f00 ← f0 !! 0;
  let newField : ScalarField3D :=
    push_loop (length f00) (fun _ =>
      push_loop (length f0) (fun _ =>
        push_loop (length field) (fun _ => 0%Qc))) in
  for_loop 0 (length field) (fun x =>
    for_loop 0 (length f0) (fun y =>
      for_loop 0 (length f00) (fun z newField =>
        v ← get3 field x y z; set3 newField z y x v))) newField.

(** ** The stencil kernels *)

(** What a kernel body reads through [this]. *)
Record KernelThis : Type := mkThis {
  thread_x : nat;
  thread_y : nat;
  thread_z : nat;
  output_x : Z;
  output_y : Z;
  output_z : Z;
  constants_cellSize : num
}.

Definition Kernel : Type :=
  KernelThis -> ScalarField3D -> ScalarField3D -> ScalarField3D -> num ->
  option num.

Definition updateMagneticX : Kernel := fun this fieldY fieldZ magFieldX dt =>
  let x := thread_x this in
  let y := thread_y this in
  let z := thread_z this in
  v ← (if (Z.of_nat y + 1 >=? output_y this)%Z then Some 0%Qc
       else get3 fieldZ x (y + 1) z);
  w ← (if (Z.of_nat z + 1 >=? output_z this)%Z then Some 0%Qc
       else get3 fieldY x y (z + 1));
  m ← get3 magFieldX x y z;
  fz ← get3 fieldZ x y z;
  fy ← get3 fieldY x y z;
  Some (m - dt * ((v - fz) - (w - fy)) / constants_cellSize this)%Qc.

Definition updateMagneticY : Kernel := fun this fieldX fieldZ magFieldY dt =>
  let x := thread_x this in
  let y := thread_y this in
  let z := thread_z this in
  u ← (if (Z.of_nat x + 1 >=? output_x this)%Z then Some 0%Qc
       else get3 fieldZ (x + 1) y z);
  w ← (if (Z.of_nat z + 1 >=? output_z this)%Z then Some 0%Qc
       else get3 fieldX x y (z + 1));
  m ← get3 magFieldY x y z;
  fx ← get3 fieldX x y z;
  fz ← get3 fieldZ x y z;
  Some (m - dt * ((w - fx) - (u - fz)) / constants_cellSize this)%Qc.

Definition updateMagneticZ : Kernel := fun this fieldX fieldY magFieldZ dt =>
  let x := thread_x this in
  let y := thread_y this in
  let z := thread_z this in
  u ← (if (Z.of_nat x + 1 >=? output_x this)%Z then Some 0%Qc
       else get3 fieldY (x + 1) y z);
  v ← (if (Z.of_nat y + 1 >=? output_y this)%Z then Some 0%Qc
       else get3 fieldX x (y + 1) z);
  m ← get3 magFieldZ x y z;
  fy ← get3 fieldY x y z;
  fx ← get3 fieldX x y z;
  Some (m - dt * ((u - fy) - (v - fx)) / constants_cellSize this)%Qc.

Definition updateElectricX : Kernel := fun this fieldY fieldZ elFieldX dt =>
  let x := thread_x this in
  let y := thread_y this in
  let z := thread_z this in
  v ← (if (Z.of_nat y - 1 <? 0)%Z then Some 0%Qc
       else get3 fieldZ x (y - 1) z);
  w ← (if (Z.of_nat z - 1 <? 0)%Z then Some 0%Qc
       else get3 fieldY x y (z - 1));
  e ← get3 elFieldX x y z;
  fz ← get3 fieldZ x y z;
  fy ← get3 fieldY x y z;
  Some (e + dt * ((fz - v) - (fy - w)) / constants_cellSize this)%Qc.

Definition updateElectricY : Kernel := fun this fieldX fieldZ elFieldY dt =>
  let x := thread_x this in
  let y := thread_y this in
  let z := thread_z this in
  u ← (if (Z.of_nat x - 1 <? 0)%Z then Some 0%Qc
       else get3 fieldZ (x - 1) y z);
  w ← (if (Z.of_nat z - 1 <? 0)%Z then Some 0%Qc
       else get3 fieldX x y (z - 1));
  e ← get3 elFieldY x y z;
  fx ← get3 fieldX x y z;
  fz ← get3 fieldZ x y z;
  Some (e + dt * ((fx - w) - (fz - u)) / constants_cellSize this)%Qc.

Definition updateElectricZ : Kernel := fun this fieldX fieldY elFieldZ dt =>
  let x := thread_x this in
  let y := thread_y this in
  let z := thread_z this in
  u ← (if (Z.of_nat x - 1 <? 0)%Z then Some 0%Qc
       else get3 fieldY (x - 1) y z);
  v ← (if (Z.of_nat y - 1 <? 0)%Z then Some 0%Qc
       else get3 fieldX x (y - 1) z);
  e ← get3 elFieldZ x y z;
  fy ← get3 fieldY x y z;
  fx ← get3 fieldX x y z;
  Some (e + dt * ((fy - u) - (fx - v)) / constants_cellSize this)%Qc.

(** ** The execution backend *)

(** Modelled from the spec: the parallel execution backend ([gpu.js], an
    external package whose code is not in the repository).  It runs the
    per-cell function once for every thread of the index space [output], lets
    it read the whole-array arguments, its own coordinates, the bounds and the
    constants, and returns a materialised array in its native order: axis z
    outermost, axis x innermost, so the value of thread [(x, y, z)] is at
    [result[z][y][x]].  An extent that is not positive gives an empty range.
    A cell function that fails makes the whole run fail. *)
Definition runKernel (body : KernelThis -> option num) (output : Z * Z * Z)
    (cellSize : num) : option ScalarField3D :=
  let '(ox, oy, oz) := output in
  mapM (fun z =>
    mapM (fun y =>
      mapM (fun x => body (mkThis x y z ox oy oz cellSize))
           (seq 0 (trips ox)))
         (seq 0 (trips oy)))
       (seq 0 (trips oz)).

(** ** The orchestrator *)

Inductive outcome : Type :=
  | Returned (sim : FDTDSimulator)
  | Threw (sim : FDTDSimulator).

Definition state_of (o : outcome) : FDTDSimulator :=
  match o with Returned sim => sim | Threw sim => sim end.

Definition completed (o : outcome) : bool :=
  match o with Returned _ => true | Threw _ => false end.

(** [copyScalarFieldReverse(this.updateK(a, b, c, dt) as ScalarField3D)] *)
Definition launch (k : Kernel) (sim : FDTDSimulator)
    (a b c : ScalarField3D) (dt : num) : option ScalarField3D :=
  result ← runKernel (fun this => k this a b c dt) (gridSize sim) (cellSize sim);
  copyScalarFieldReverse result.

Definition with_data (sim : FDTDSimulator) (d : SimulationData)
    : FDTDSimulator :=
  {| data := d; gridSize := gridSize sim; cellSize := cellSize sim |}.

Definition set_time (t : num) (d : SimulationData) : SimulationData :=
  mkData t (electricFieldX d) (electricFieldY d) (electricFieldZ d)
         (magneticFieldX d) (magneticFieldY d) (magneticFieldZ d)
         (permittivity d) (permeability d).

Definition set_electricFieldX (f : ScalarField3D) (d : SimulationData) :=
  mkData (time d) f (electricFieldY d) (electricFieldZ d)
         (magneticFieldX d) (magneticFieldY d) (magneticFieldZ d)
         (permittivity d) (permeability d).

Definition set_electricFieldY (f : ScalarField3D) (d : SimulationData) :=
  mkData (time d) (electricFieldX d) f (electricFieldZ d)
         (magneticFieldX d) (magneticFieldY d) (magneticFieldZ d)
         (permittivity d) (permeability d).

Definition set_electricFieldZ (f : ScalarField3D) (d : SimulationData) :=
  mkData (time d) (electricFieldX d) (electricFieldY d) f
         (magneticFieldX d) (magneticFieldY d) (magneticFieldZ d)
         (permittivity d) (permeability d).

Definition set_magneticFieldX (f : ScalarField3D) (d : SimulationData) :=
  mkData (time d) (electricFieldX d) (electricFieldY d) (electricFieldZ d)
         f (magneticFieldY d) (magneticFieldZ d)
         (permittivity d) (permeability d).

Definition set_magneticFieldY (f : ScalarField3D) (d : SimulationData) :=
  mkData (time d) (electricFieldX d) (electricFieldY d) (electricFieldZ d)
         (magneticFieldX d) f (magneticFieldZ d)
         (permittivity d) (permeability d).

Definition set_magneticFieldZ (f : ScalarField3D) (d : SimulationData) :=
  mkData (time d) (electricFieldX d) (electricFieldY d) (electricFieldZ d)
         (magneticFieldX d) (magneticFieldY d) f
         (permittivity d) (permeability d).

Definition set_materials (eps mu : ScalarField3D) (d : SimulationData) :=
  mkData (time d) (electricFieldX d) (electricFieldY d) (electricFieldZ d)
         (magneticFieldX d) (magneticFieldY d) (magneticFieldZ d) eps mu.

(** [this.data.F = rhs; rest]: when [rhs] throws, nothing is assigned and the
    exception leaves the method. *)
Definition assign (set : ScalarField3D -> SimulationData -> SimulationData)
    (rhs : FDTDSimulator -> option ScalarField3D) (sim : FDTDSimulator)
    (rest : FDTDSimulator -> outcome) : outcome :=
  match rhs sim with
  | Some f => rest (with_data sim (set f (data sim)))
  | None => Threw sim
  end.

Definition stepElectric (sim : FDTDSimulator) (dt : num) : outcome :=
  assign set_electricFieldX (fun sim =>
    launch updateElectricX sim (magneticFieldY (data sim))
           (magneticFieldZ (data sim)) (electricFieldX (data sim)) dt) sim
  (fun sim =>
  assign set_electricFieldY (fun sim =>
    launch updateElectricY sim (magneticFieldX (data sim))
           (magneticFieldZ (data sim)) (electricFieldY (data sim)) dt) sim
  (fun sim =>
  assign set_electricFieldZ (fun sim =>
    launch updateElectricZ sim (magneticFieldX (data sim))
           (magneticFieldY (data sim)) (electricFieldZ (data sim)) dt) sim
  (fun sim =>
  Returned (with_data sim
              (set_time (time (data sim) + dt / num_of_Z 2)%Qc (data sim)))))).

Definition stepMagnetic (sim : FDTDSimulator) (dt : num) : outcome :=
  assign set_magneticFieldX (fun sim =>
    launch updateMagneticX sim (electricFieldY (data sim))
           (electricFieldZ (data sim)) (magneticFieldX (data sim)) dt) sim
  (fun sim =>
  assign set_magneticFieldY (fun sim =>
    launch updateMagneticY sim (electricFieldX (data sim))
           (electricFieldZ (data sim)) (magneticFieldY (data sim)) dt) sim
  (fun sim =>
  assign set_magneticFieldZ (fun sim =>
    launch updateMagneticZ sim (electricFieldX (data sim))
           (electricFieldY (data sim)) (magneticFieldZ (data sim)) dt) sim
  (fun sim =>
  Returned (with_data sim
              (set_time (time (data sim) + dt / num_of_Z 2)%Qc (data sim)))))).

Definition getData (sim : FDTDSimulator) : SimulationData := data sim.

(** What a half-step never touches. *)
Definition same_frame (sim sim' : FDTDSimulator) : Prop :=
  gridSize sim' = gridSize sim /\ cellSize sim' = cellSize sim /\
  permittivity (data sim') = permittivity (data sim) /\
  permeability (data sim') = permeability (data sim).

(** The simulator with other material fields. *)
Definition with_materials (eps mu : ScalarField3D) (sim : FDTDSimulator)
    : FDTDSimulator :=
  with_data sim (set_materials eps mu (data sim)).

Definition map_outcome (f : FDTDSimulator -> FDTDSimulator) (o : outcome)
    : outcome :=
  match o with
  | Returned sim => Returned (f sim)
  | Threw sim => Threw (f sim)
  end.

(** The six electric and magnetic components are the zero field of the
    grid. *)
Definition all_zero (sim : FDTDSimulator) : Prop :=
  electricFieldX (data sim) = zeroField (gridSize sim) /\
  electricFieldY (data sim) = zeroField (gridSize sim) /\
  electricFieldZ (data sim) = zeroField (gridSize sim) /\
  magneticFieldX (data sim) = zeroField (gridSize sim) /\
  magneticFieldY (data sim) = zeroField (gridSize sim) /\
  magneticFieldZ (data sim) = zeroField (gridSize sim).

(** ** Sequences of calls *)

Inductive call : Type :=
  | StepElectric (dt : num)
  | StepMagnetic (dt : num).

Definition perform (c : call) (sim : FDTDSimulator) : outcome :=
  match c with
  | StepElectric dt => stepElectric sim dt
  | StepMagnetic dt => stepMagnetic sim dt
  end.

(** The simulator after the calls [cs] in order; a call that throws leaves the
    simulator as it was when the exception was raised, and the caller goes on
    with the next call. *)
Definition run_calls (cs : list call) (sim : FDTDSimulator) : FDTDSimulator :=
  foldl (fun s c => state_of (perform c s)) sim cs.

(** One leapfrog cycle: [stepElectric(dt)] then [stepMagnetic(dt)]. *)
Definition leapfrog (dt : num) (sim : FDTDSimulator) : outcome :=
  match stepElectric sim dt with
  | Returned sim1 => stepMagnetic sim1 dt
  | Threw sim1 => Threw sim1
  end.

Fixpoint cycles (k : nat) (dt : num) (sim : FDTDSimulator) : outcome :=
  match k with
  | O => Returned sim
  | S k' =>
      match leapfrog dt sim with
      | Returned sim1 => cycles k' dt sim1
      | Threw sim1 => Threw sim1
      end
  end.

(** ** The update equations as the specification writes them *)

(** A field sampled at integer coordinates, zero outside of the array: the
    specification's rule for the neighbour at index+1 or index-1. *)
Definition sample (f : ScalarField3D) (x y z : Z) : num :=
  if ((x <? 0) || (y <? 0) || (z <? 0))%Z then 0%Qc
  else default 0%Qc (get3 f (Z.to_nat x) (Z.to_nat y) (Z.to_nat z)).

Section SpecEquations.
Variable d : SimulationData.
Variable cell : num.
Variable dt : num.
Variables x y z : Z.
Local Open Scope Qc_scope.

Let Ex := sample (electricFieldX d).
Let Ey := sample (electricFieldY d).
Let Ez := sample (electricFieldZ d).
Let Hx := sample (magneticFieldX d).
Let Hy := sample (magneticFieldY d).
Let Hz := sample (magneticFieldZ d).

Definition spec_Hx : num :=
  Hx x y z - (dt / cell) * ((Ez x (y + 1)%Z z - Ez x y z) - (Ey x y (z + 1)%Z - Ey x y z)).
Definition spec_Hy : num :=
  Hy x y z - (dt / cell) * ((Ex x y (z + 1)%Z - Ex x y z) - (Ez (x + 1)%Z y z - Ez x y z)).
Definition spec_Hz : num :=
  Hz x y z - (dt / cell) * ((Ey (x + 1)%Z y z - Ey x y z) - (Ex x (y + 1)%Z z - Ex x y z)).

Definition spec_Ex : num :=
  Ex x y z + (dt / cell) * ((Hz x y z - Hz x (y - 1)%Z z) - (Hy x y z - Hy x y (z - 1)%Z)).
Definition spec_Ey : num :=
  Ey x y z + (dt / cell) * ((Hx x y z - Hx x y (z - 1)%Z) - (Hz x y z - Hz (x - 1)%Z y z)).
Definition spec_Ez : num :=
  Ez x y z + (dt / cell) * ((Hy x y z - Hy (x - 1)%Z y z) - (Hx x y z - Hx x (y - 1)%Z z)).
End SpecEquations.

(** The half-steps as the specification describes them: every cell of the
    three updated components gets the value of its equation on the state
    before the call, everything else but [time] is kept. *)
Definition spec_stepMagnetic (sim : FDTDSimulator) (dt : num) : FDTDSimulator :=
  let d := data sim in
  let eq (f : SimulationData -> num -> num -> Z -> Z -> Z -> num) :=
    grid3 (dimX sim) (dimY sim) (dimZ sim) (fun x y z =>
      f d (cellSize sim) dt (Z.of_nat x) (Z.of_nat y) (Z.of_nat z)) in
  with_data sim
    (mkData (time d + dt / num_of_Z 2)%Qc
            (electricFieldX d) (electricFieldY d) (electricFieldZ d)
            (eq spec_Hx) (eq spec_Hy) (eq spec_Hz)
            (permittivity d) (permeability d)).

Definition spec_stepElectric (sim : FDTDSimulator) (dt : num) : FDTDSimulator :=
  let d := data sim in
  let eq (f : SimulationData -> num -> num -> Z -> Z -> Z -> num) :=
    grid3 (dimX sim) (dimY sim) (dimZ sim) (fun x y z =>
      f d (cellSize sim) dt (Z.of_nat x) (Z.of_nat y) (Z.of_nat z)) in
  with_data sim
    (mkData (time d + dt / num_of_Z 2)%Qc
            (eq spec_Ex) (eq spec_Ey) (eq spec_Ez)
            (magneticFieldX d) (magneticFieldY d) (magneticFieldZ d)
            (permittivity d) (permeability d)).

(** ** The fill loops of the layout adapter *)

(** The cells the fill loops have already passed when the counters are at
    [(x, y, z)]. *)
Definition passed (x y z a b c : nat) : Prop :=
  a < x \/ (a = x /\ b < y) \/ (a = x /\ b = y /\ c < z).

(** [newField] holds the mirrored value of every cell already passed. *)
Definition filled (field : ScalarField3D) (A B C x y z : nat)
    (newField : ScalarField3D) : Prop :=
  has_shape newField C B A /\
  forall a b c, a < A -> b < B -> c < C -> passed x y z a b c ->
    get3 newField c b a = get3 field a b c.

(** ** The boundary scenario of the specification *)

(** [field[x][y][z] = v] done by a caller on the arrays [getData()] exposes. *)
Definition write_cell (f : ScalarField3D) (x y z : nat) (v : num)
    : ScalarField3D :=
  default f (set3 f x y z v).

(** Grid (2,2,2), cell size 1, [Ez[0][1][1] = 5], everything else zero. *)
Definition boundary_scene : FDTDSimulator :=
  let sim := initial (2, 2, 2)%Z (num_of_Z 1) in
  with_data sim
    (set_electricFieldZ
       (write_cell (electricFieldZ (data sim)) 0 1 1 (num_of_Z 5)) (data sim)).

(** The boundary scenario after one magnetic half-step of 0.1. *)
Definition magnetised_scene : FDTDSimulator :=
  state_of (stepMagnetic boundary_scene (Q2Qc (1 # 10))).

Definition num_of_nat (k : nat) : num := num_of_Z (Z.of_nat k).

Definition one_tenth : num := Q2Qc (1 # 10).
Definition one_half : num := Q2Qc (1 # 2).

(** ** [reverse] *)

(** The loop of [reverse] with [n] iterations left: the next one pushes
    [x[n - 1]]. *)
Fixpoint reverse_loop {T : Type} (x : list T) (n : nat) : option (list T) :=
  match n with
  | O => Some []
  | S i => v ← x !! i; rest ← reverse_loop x i; Some (v :: rest)
  end.

(** [reverse(x)]: [for (let i = x.length - 1; i >= 0; i--) y.push(x[i])]. *)
Definition reverse {T : Type} (x : list T) : option (list T) :=
  reverse_loop x (length x).

(** ** Scaled and summed states *)

Definition scale_field (c : num) (f : ScalarField3D) : ScalarField3D :=
  fmap (M:=list) (fmap (M:=list) (fmap (M:=list) (Qcmult c))) f.

(** The six electric and magnetic components multiplied by [c]. *)
Definition scale_sim (c : num) (sim : FDTDSimulator) : FDTDSimulator :=
  let d := data sim in
  with_data sim
    (mkData (time d)
            (scale_field c (electricFieldX d)) (scale_field c (electricFieldY d))
            (scale_field c (electricFieldZ d)) (scale_field c (magneticFieldX d))
            (scale_field c (magneticFieldY d)) (scale_field c (magneticFieldZ d))
            (permittivity d) (permeability d)).

Definition add_field (f g : ScalarField3D) : ScalarField3D :=
  zip_with (zip_with (zip_with Qcplus)) f g.

(** The six components of [sim1] and [sim2] added cell by cell; the rest is
    taken from [sim1]. *)
Definition add_sim (sim1 sim2 : FDTDSimulator) : FDTDSimulator :=
  let d1 := data sim1 in
  let d2 := data sim2 in
  with_data sim1
    (mkData (time d1)
            (add_field (electricFieldX d1) (electricFieldX d2))
            (add_field (electricFieldY d1) (electricFieldY d2))
            (add_field (electricFieldZ d1) (electricFieldZ d2))
            (add_field (magneticFieldX d1) (magneticFieldX d2))
            (add_field (magneticFieldY d1) (magneticFieldY d2))
            (add_field (magneticFieldZ d1) (magneticFieldZ d2))
            (permittivity d1) (permeability d1)).



(** * Properties *)

(** ** Arrays built by push loops *)

Lemma push_loop_length {T : Type} (n : nat) (body : nat -> T) :
  length (push_loop n body) = n.
Proof. unfold push_loop. by rewrite length_fmap, length_seq. Qed.

Lemma push_loop_lookup {T : Type} (n : nat) (body : nat -> T) (i : nat) :
  i < n -> push_loop n body !! i = Some (body i).
Proof.
  intros Hi. unfold push_loop.
  by rewrite list_lookup_fmap, lookup_seq_lt.
Qed.

Lemma push_loop_lookup_ge {T : Type} (n : nat) (body : nat -> T) (i : nat) :
  n <= i -> push_loop n body !! i = None.
Proof.
  intros Hi. apply lookup_ge_None. by rewrite push_loop_length.
Qed.

Lemma push_loop_Forall {T : Type} (P : T -> Prop) (n : nat) (body : nat -> T) :
  (forall i, i < n -> P (body i)) -> Forall P (push_loop n body).
Proof.
  intros H. apply Forall_lookup. intros i v Hv.
  destruct (decide (i < n)) as [Hi|Hi].
  - rewrite push_loop_lookup in Hv by done. injection Hv as <-. auto.
  - rewrite push_loop_lookup_ge in Hv by lia. done.
Qed.

Lemma grid3_shape {T : Type} (a b c : nat) (g : nat -> nat -> nat -> T) :
  has_shape (grid3 a b c g) a b c.
Proof.
  split; [apply push_loop_length|].
  apply push_loop_Forall. intros i _. split; [apply push_loop_length|].
  apply push_loop_Forall. intros j _. apply push_loop_length.
Qed.

Lemma grid3_get3 {T : Type} (a b c : nat) (g : nat -> nat -> nat -> T)
    (i j k : nat) :
  i < a -> j < b -> k < c -> get3 (grid3 a b c g) i j k = Some (g i j k).
Proof.
  intros Hi Hj Hk. unfold get3, grid3.
  rewrite push_loop_lookup by done. simpl.
  rewrite push_loop_lookup by done. simpl.
  by rewrite push_loop_lookup.
Qed.

Lemma makeField3D_grid3 {T : Type} (s0 s1 s2 : Z)
    (getValue : nat * nat * nat -> T) :
  makeField3D (s0, s1, s2) getValue =
  grid3 (trips s0) (trips s1) (trips s2) (fun x y z => getValue (x, y, z)).
Proof. reflexivity. Qed.

Lemma trips_of_nat (n : nat) : trips (Z.of_nat n) = n.
Proof. unfold trips. lia. Qed.

(** ** Shapes *)

Lemma has_shape_row {T : Type} (f : Field3D T) (a b c x : nat)
    (row : list (list T)) :
  has_shape f a b c -> f !! x = Some row ->
  length row = b /\ Forall (fun d => length d = c) row.
Proof.
  intros [_ Hf] Hx. exact (proj1 (Forall_lookup _ _) Hf x row Hx).
Qed.

Lemma has_shape_cells {T : Type} (f : Field3D T) (a b c x y : nat)
    (row : list (list T)) (d : list T) :
  has_shape f a b c -> f !! x = Some row -> row !! y = Some d -> length d = c.
Proof.
  intros Hf Hx Hy. destruct (has_shape_row f a b c x row Hf Hx) as [_ Hr].
  exact (proj1 (Forall_lookup _ _) Hr y d Hy).
Qed.

Lemma has_shape_get3 {T : Type} (f : Field3D T) (a b c x y z : nat) :
  has_shape f a b c -> x < a -> y < b -> z < c -> is_Some (get3 f x y z).
Proof.
  intros Hf Hx Hy Hz. unfold get3.
  destruct (lookup_lt_is_Some_2 f x) as [row Hrow]; [by rewrite (proj1 Hf)|].
  rewrite Hrow. simpl.
  destruct (has_shape_row f a b c x row Hf Hrow) as [Hlen _].
  destruct (lookup_lt_is_Some_2 row y) as [d Hd]; [lia|].
  rewrite Hd. simpl.
  apply lookup_lt_is_Some_2.
  rewrite (has_shape_cells f a b c x y row d Hf Hrow Hd). done.
Qed.

Lemma get3_in_range {T : Type} (f : Field3D T) (a b c x y z : nat) (v : T) :
  has_shape f a b c -> get3 f x y z = Some v -> x < a /\ y < b /\ z < c.
Proof.
  intros Hf. unfold get3.
  destruct (f !! x) as [row|] eqn:Hrow; simpl; [|done].
  destruct (row !! y) as [d|] eqn:Hd; simpl; [|done].
  intros Hz.
  destruct (has_shape_row f a b c x row Hf Hrow) as [Hlen _].
  pose proof (has_shape_cells f a b c x y row d Hf Hrow Hd) as Hc.
  apply lookup_lt_Some in Hrow, Hd, Hz. destruct Hf as [Ha _]. lia.
Qed.

Lemma get3_out_of_range {T : Type} (f : Field3D T) (a b c x y z : nat) :
  has_shape f a b c -> ~ (x < a /\ y < b /\ z < c) -> get3 f x y z = None.
Proof.
  intros Hf Hn. destruct (get3 f x y z) as [v|] eqn:Hv; [|done].
  destruct Hn. eapply get3_in_range; eauto.
Qed.

(** Two arrays of one shape with the same cells are the same array. *)
Lemma field_ext {T : Type} (f g : Field3D T) (a b c : nat) :
  has_shape f a b c -> has_shape g a b c ->
  (forall x y z, x < a -> y < b -> z < c -> get3 f x y z = get3 g x y z) ->
  f = g.
Proof.
  intros Hf Hg Heq. apply list_eq. intros x.
  destruct (decide (x < a)) as [Hx|Hx].
  2:{ rewrite !(proj2 (lookup_ge_None _ _)); [done| |].
      - rewrite (proj1 Hg). lia.
      - rewrite (proj1 Hf). lia. }
  destruct (lookup_lt_is_Some_2 f x) as [rf Hrf]; [by rewrite (proj1 Hf)|].
  destruct (lookup_lt_is_Some_2 g x) as [rg Hrg]; [by rewrite (proj1 Hg)|].
  rewrite Hrf, Hrg. f_equal.
  destruct (has_shape_row f a b c x rf Hf Hrf) as [Lf _].
  destruct (has_shape_row g a b c x rg Hg Hrg) as [Lg _].
  apply list_eq. intros y.
  destruct (decide (y < b)) as [Hy|Hy].
  2:{ rewrite !(proj2 (lookup_ge_None _ _)); [done|lia|lia]. }
  destruct (lookup_lt_is_Some_2 rf y) as [df Hdf]; [lia|].
  destruct (lookup_lt_is_Some_2 rg y) as [dg Hdg]; [lia|].
  rewrite Hdf, Hdg. f_equal.
  pose proof (has_shape_cells f a b c x y rf df Hf Hrf Hdf) as Cf.
  pose proof (has_shape_cells g a b c x y rg dg Hg Hrg Hdg) as Cg.
  apply list_eq. intros z.
  destruct (decide (z < c)) as [Hz|Hz].
  2:{ rewrite !(proj2 (lookup_ge_None _ _)); [done|lia|lia]. }
  specialize (Heq x y z Hx Hy Hz). unfold get3 in Heq.
  rewrite Hrf, Hrg in Heq. simpl in Heq. rewrite Hdf, Hdg in Heq. done.
Qed.

(** ** Writing one cell *)

Lemma set3_shape {T : Type} (f f' : Field3D T) (a b c x y z : nat) (v : T) :
  has_shape f a b c -> set3 f x y z v = Some f' -> has_shape f' a b c.
Proof.
  intros Hf. unfold set3.
  destruct (f !! x) as [row|] eqn:Hrow; simpl; [|done].
  destruct (row !! y) as [d|] eqn:Hd; simpl; [|done].
  destruct (d !! z) as [old|] eqn:Hold; simpl; [|done].
  intros [= <-].
  destruct (has_shape_row f a b c x row Hf Hrow) as [Hlen Hcells].
  pose proof (has_shape_cells f a b c x y row d Hf Hrow Hd) as Hc.
  split; [rewrite length_insert; apply Hf|].
  apply Forall_insert; [apply Hf|].
  split; [by rewrite length_insert|].
  apply Forall_insert; [done|]. by rewrite length_insert.
Qed.

Lemma set3_is_Some {T : Type} (f : Field3D T) (x y z : nat) (v : T) :
  is_Some (get3 f x y z) -> is_Some (set3 f x y z v).
Proof.
  unfold get3, set3.
  destruct (f !! x) as [row|]; simpl; [|by intros [? ?]].
  destruct (row !! y) as [d|]; simpl; [|by intros [? ?]].
  intros [old ->]. simpl. eauto.
Qed.

Lemma get3_set3 {T : Type} (f f' : Field3D T) (x y z i j k : nat) (v : T) :
  set3 f x y z v = Some f' ->
  get3 f' i j k =
  if decide (i = x /\ j = y /\ k = z) then Some v else get3 f i j k.
Proof.
  unfold set3.
  destruct (f !! x) as [row|] eqn:Hrow; simpl; [|done].
  destruct (row !! y) as [d|] eqn:Hd; simpl; [|done].
  destruct (d !! z) as [old|] eqn:Hold; simpl; [|done].
  intros [= <-]. unfold get3.
  apply lookup_lt_Some in Hold as Hz.
  pose proof (lookup_lt_Some _ _ _ Hrow) as Hx.
  pose proof (lookup_lt_Some _ _ _ Hd) as Hy.
  destruct (decide (i = x)) as [->|Hi].
  - rewrite list_lookup_insert_eq by done. simpl.
    destruct (decide (j = y)) as [->|Hj].
    + rewrite list_lookup_insert_eq by done. simpl.
      destruct (decide (k = z)) as [->|Hk].
      * rewrite list_lookup_insert_eq by done.
        rewrite decide_True; done.
      * rewrite list_lookup_insert_ne by done.
        rewrite decide_False by (intros (_ & _ & ?); done).
        rewrite Hrow. simpl. by rewrite Hd.
    + rewrite list_lookup_insert_ne by done.
      rewrite decide_False by (intros (_ & ? & _); done).
      by rewrite Hrow.
  - rewrite list_lookup_insert_ne by done.
    rewrite decide_False by (intros (? & _ & _); done). done.
Qed.

(** ** Loops *)

(** Invariant rule for a loop whose body cannot fail under the invariant. *)
Lemma for_loop_invariant {St : Type} (P : nat -> St -> Prop)
    (body : nat -> St -> option St) (count start : nat) (s : St) :
  P start s ->
  (forall i t, start <= i < start + count -> P i t ->
     exists t', body i t = Some t' /\ P (S i) t') ->
  exists s', for_loop start count body s = Some s' /\ P (start + count) s'.
Proof.
  revert start s. induction count as [|n IH]; intros start s H0 Hstep.
  - exists s. simpl. by rewrite Nat.add_0_r.
  - destruct (Hstep start s) as (t & Ht & HP); [lia|done|].
    destruct (IH (S start) t HP) as (s' & Hs' & HP').
    { intros i u Hi Hu. apply Hstep; [lia|done]. }
    exists s'. simpl. rewrite Ht. simpl. split; [done|].
    by replace (start + S n) with (S start + n) by lia.
Qed.

(** ** The layout adapter copies every cell to its mirrored position *)

Section CopyLoops.
Variable field : ScalarField3D.
Variables A B C : nat.
Hypothesis field_shape : has_shape field A B C.

Local Abbreviation filled := (filled field A B C).

Lemma fill_cell (x y z : nat) (newField : ScalarField3D) :
  x < A -> y < B -> z < C -> filled x y z newField ->
  exists newField',
    (v ← get3 field x y z; set3 newField z y x v) = Some newField' /\
    filled x y (S z) newField'.
Proof.
  intros Hx Hy Hz [Hs Hc].
  destruct (has_shape_get3 field A B C x y z) as [v Hv]; try done.
  rewrite Hv. simpl.
  destruct (set3_is_Some newField z y x v) as [nf Hnf].
  { by apply (has_shape_get3 newField C B A). }
  exists nf. split; [done|]. split; [by eapply set3_shape|].
  intros a b c Ha Hb Hcc Hp.
  rewrite (get3_set3 _ _ _ _ _ _ _ _ _ Hnf).
  case_decide as Hd.
  - destruct Hd as (-> & -> & ->). done.
  - apply Hc; try done. unfold passed in *. lia.
Qed.

Lemma fill_row (x y : nat) (newField : ScalarField3D) :
  x < A -> y < B -> filled x y 0 newField ->
  exists newField',
    for_loop 0 C (fun z nf => v ← get3 field x y z; set3 nf z y x v)
             newField = Some newField' /\
    filled x (S y) 0 newField'.
Proof.
  intros Hx Hy H0.
  destruct (for_loop_invariant (fun z nf => filled x y z nf)
              (fun z nf => v ← get3 field x y z; set3 nf z y x v)
              C 0 newField H0) as (nf & Hnf & [Hs Hc]).
  { intros z t Hz Ht. apply fill_cell; try done. lia. }
  exists nf. split; [done|]. split; [done|].
  intros a b c Ha Hb Hcc Hp. apply Hc; try done. unfold passed in *. lia.
Qed.

Lemma fill_plane (x : nat) (newField : ScalarField3D) :
  x < A -> filled x 0 0 newField ->
  exists newField',
    for_loop 0 B (fun y =>
      for_loop 0 C (fun z nf => v ← get3 field x y z; set3 nf z y x v))
             newField = Some newField' /\
    filled (S x) 0 0 newField'.
Proof.
  intros Hx H0.
  destruct (for_loop_invariant (fun y nf => filled x y 0 nf)
              (fun y => for_loop 0 C
                 (fun z nf => v ← get3 field x y z; set3 nf z y x v))
              B 0 newField H0) as (nf & Hnf & [Hs Hc]).
  { intros y t Hy Ht. apply fill_row; try done. lia. }
  exists nf. split; [done|]. split; [done|].
  intros a b c Ha Hb Hcc Hp. apply Hc; try done. unfold passed in *. lia.
Qed.

Lemma fill_all (newField : ScalarField3D) :
  has_shape newField C B A ->
  exists newField',
    for_loop 0 A (fun x =>
      for_loop 0 B (fun y =>
        for_loop 0 C (fun z nf => v ← get3 field x y z; set3 nf z y x v)))
             newField = Some newField' /\
    has_shape newField' C B A /\
    forall a b c, a < A -> b < B -> c < C ->
      get3 newField' c b a = get3 field a b c.
Proof.
  intros Hs.
  destruct (for_loop_invariant (fun x nf => filled x 0 0 nf)
              (fun x => for_loop 0 B (fun y => for_loop 0 C
                 (fun z nf => v ← get3 field x y z; set3 nf z y x v)))
              A 0 newField) as (nf & Hnf & [Hs' Hc]).
  { split; [done|]. intros a b c _ _ _ Hp. unfold passed in Hp. lia. }
  { intros x t Hx Ht. apply fill_plane; try done. lia. }
  exists nf. split; [done|]. split; [done|].
  intros a b c Ha Hb Hcc. apply Hc; try done. unfold passed. lia.
Qed.

Lemma copy_total :
  0 < A -> 0 < B ->
  exists r, copyScalarFieldReverse field = Some r /\
    has_shape r C B A /\
    forall a b c, a < A -> b < B -> c < C ->
      get3 r c b a = get3 field a b c.
Proof.
  intros HA HB. unfold copyScalarFieldReverse.
  destruct (lookup_lt_is_Some_2 field 0) as [f0 Hf0].
  { by rewrite (proj1 field_shape). }
  destruct (has_shape_row field A B C 0 f0 field_shape Hf0) as [L0 _].
  destruct (lookup_lt_is_Some_2 f0 0) as [f00 Hf00]; [lia|].
  pose proof (has_shape_cells field A B C 0 0 f0 f00 field_shape Hf0 Hf00)
    as L00.
  rewrite Hf0. simpl. rewrite Hf00. simpl.
  rewrite L0, L00, (proj1 field_shape).
  apply fill_all. apply (grid3_shape C B A (fun _ _ _ => 0%Qc)).
Qed.

(** Whenever the adapter returns, its input had a first plane and a first
    row. *)
Lemma copy_returns_inv (r : ScalarField3D) :
  copyScalarFieldReverse field = Some r -> 0 < A /\ 0 < B.
Proof.
  unfold copyScalarFieldReverse.
  destruct (field !! 0) as [f0|] eqn:Hf0; simpl; [|done].
  destruct (f0 !! 0) as [f00|] eqn:Hf00; simpl; [|done].
  intros _.
  destruct (has_shape_row field A B C 0 f0 field_shape Hf0) as [L0 _].
  apply lookup_lt_Some in Hf0, Hf00. destruct field_shape as [LA _]. lia.
Qed.

Lemma copy_shape (r : ScalarField3D) :
  copyScalarFieldReverse field = Some r -> has_shape r C B A.
Proof.
  intros Hr. destruct (copy_returns_inv r Hr) as [HA HB].
  destruct (copy_total HA HB) as (r' & Hr' & Hs & _). congruence.
Qed.
End CopyLoops.

(** ** The backend returns the kernel's values in its own order *)

Lemma mapM_seq_Some {T : Type} (f : nat -> option T) (g : nat -> T) (n : nat) :
  (forall i, i < n -> f i = Some (g i)) ->
  mapM f (seq 0 n) = Some (push_loop n g).
Proof.
  intros H. apply mapM_Some_2. unfold push_loop.
  apply Forall2_fmap_r, Forall_Forall2_diag, Forall_forall.
  intros i Hi. apply elem_of_seq in Hi. apply H. lia.
Qed.

Lemma mapM_seq_length {T : Type} (f : nat -> option T) (n : nat) (l : list T) :
  mapM f (seq 0 n) = Some l -> length l = n.
Proof.
  intros H. apply mapM_Some_1, Forall2_length in H.
  by rewrite length_seq in H.
Qed.

Lemma mapM_seq_Forall {T : Type} (P : T -> Prop) (f : nat -> option T)
    (n : nat) (l : list T) :
  (forall i v, f i = Some v -> P v) -> mapM f (seq 0 n) = Some l -> Forall P l.
Proof.
  intros HP H. apply mapM_Some_1 in H.
  induction H as [|i v rest l Hv _ IH]; constructor; eauto.
Qed.

Lemma runKernel_total (body : KernelThis -> option num) (ox oy oz : Z)
    (cell : num) (g : nat -> nat -> nat -> num) :
  (forall x y z, x < trips ox -> y < trips oy -> z < trips oz ->
     body (mkThis x y z ox oy oz cell) = Some (g x y z)) ->
  runKernel body (ox, oy, oz) cell =
  Some (grid3 (trips oz) (trips oy) (trips ox) (fun z y x => g x y z)).
Proof.
  intros H. unfold runKernel, grid3.
  apply mapM_seq_Some. intros z Hz.
  apply mapM_seq_Some. intros y Hy.
  apply mapM_seq_Some. intros x Hx. by apply H.
Qed.

Lemma runKernel_shape (body : KernelThis -> option num) (ox oy oz : Z)
    (cell : num) (r : ScalarField3D) :
  runKernel body (ox, oy, oz) cell = Some r ->
  has_shape r (trips oz) (trips oy) (trips ox).
Proof.
  unfold runKernel. intros H. split; [by eapply mapM_seq_length|].
  eapply mapM_seq_Forall; [|exact H]. simpl.
  intros z row Hrow. split; [by eapply mapM_seq_length|].
  eapply mapM_seq_Forall; [|exact Hrow]. simpl.
  intros y d Hd. by eapply mapM_seq_length.
Qed.

(** ** A kernel launch followed by the adapter *)

Lemma launch_shape (k : Kernel) (sim : FDTDSimulator) (a b c : ScalarField3D)
    (dt : num) (f : ScalarField3D) :
  launch k sim a b c dt = Some f ->
  has_shape f (dimX sim) (dimY sim) (dimZ sim).
Proof.
  unfold launch, dimX, dimY, dimZ.
  destruct (gridSize sim) as [[ox oy] oz]. cbn [fst snd].
  destruct (runKernel _ _ _) as [r|] eqn:Hr; simpl; [|done].
  intros Hf. apply runKernel_shape in Hr. by eapply copy_shape.
Qed.

(** A launch returns only on a grid with at least one row and one column of
    threads along y and z. *)
Lemma launch_returns_inv (k : Kernel) (sim : FDTDSimulator)
    (a b c : ScalarField3D) (dt : num) (f : ScalarField3D) :
  launch k sim a b c dt = Some f -> 0 < dimY sim /\ 0 < dimZ sim.
Proof.
  unfold launch, dimX, dimY, dimZ.
  destruct (gridSize sim) as [[ox oy] oz]. cbn [fst snd].
  destruct (runKernel _ _ _) as [r|] eqn:Hr; simpl; [|done].
  intros Hf. apply runKernel_shape in Hr.
  destruct (copy_returns_inv r _ _ _ Hr f Hf). done.
Qed.

Lemma launch_total (k : Kernel) (sim : FDTDSimulator) (a b c : ScalarField3D)
    (dt : num) (g : nat -> nat -> nat -> num) :
  0 < dimY sim -> 0 < dimZ sim ->
  (forall x y z, x < dimX sim -> y < dimY sim -> z < dimZ sim ->
     k (mkThis x y z (gridSize sim).1.1 (gridSize sim).1.2 (gridSize sim).2
               (cellSize sim)) a b c dt = Some (g x y z)) ->
  launch k sim a b c dt = Some (grid3 (dimX sim) (dimY sim) (dimZ sim) g).
Proof.
  unfold launch, dimX, dimY, dimZ.
  destruct (gridSize sim) as [[ox oy] oz]. cbn [fst snd]. intros HNy HNz Hk.
  rewrite (runKernel_total _ _ _ _ _ g) by done. simpl.
  destruct (copy_total (grid3 (trips oz) (trips oy) (trips ox)
                          (fun z y x => g x y z))
                       (trips oz) (trips oy) (trips ox))
    as (r & Hr & Hs & Hc); [apply grid3_shape|done|done|].
  rewrite Hr. f_equal.
  apply (field_ext r _ (trips ox) (trips oy) (trips oz));
    [done|apply grid3_shape|].
  intros x y z Hx Hy Hz.
  rewrite (Hc z y x), !grid3_get3; done.
Qed.

(** ** Sampling a field of known shape *)

Lemma sample_nat (f : ScalarField3D) (x y z : nat) :
  sample f (Z.of_nat x) (Z.of_nat y) (Z.of_nat z) = default 0%Qc (get3 f x y z).
Proof.
  unfold sample.
  replace (((Z.of_nat x <? 0) || (Z.of_nat y <? 0) || (Z.of_nat z <? 0))%Z)
    with false.
  - by rewrite !Nat2Z.id.
  - symmetry. rewrite !orb_false_iff, !Z.ltb_ge. lia.
Qed.

Lemma sample_outside (f : ScalarField3D) (a b c : nat) (X Y Z : Z) :
  has_shape f a b c ->
  (X < 0 \/ Y < 0 \/ Z < 0 \/
   Z.of_nat a <= X \/ Z.of_nat b <= Y \/ Z.of_nat c <= Z)%Z ->
  sample f X Y Z = 0%Qc.
Proof.
  intros Hf Hout. unfold sample.
  destruct ((X <? 0) || (Y <? 0) || (Z <? 0))%Z eqn:E; [done|].
  rewrite !orb_false_iff, !Z.ltb_ge in E.
  rewrite (get3_out_of_range f a b c); [done|done|lia].
Qed.

Lemma sample_inside (f : ScalarField3D) (a b c x y z : nat) :
  has_shape f a b c -> x < a -> y < b -> z < c ->
  get3 f x y z = Some (sample f (Z.of_nat x) (Z.of_nat y) (Z.of_nat z)).
Proof.
  intros Hf Hx Hy Hz. rewrite sample_nat.
  by destruct (has_shape_get3 f a b c x y z) as [v ->].
Qed.

(** A neighbour read behind its bounds test is the zero-extended sample. *)
Lemma guarded_read (f : ScalarField3D) (a b c : nat) (test : bool)
    (x y z : nat) (X Y Z : Z) :
  has_shape f a b c ->
  (test = true -> sample f X Y Z = 0%Qc) ->
  (test = false ->
     X = Z.of_nat x /\ Y = Z.of_nat y /\ Z = Z.of_nat z /\
     x < a /\ y < b /\ z < c) ->
  (if test then Some 0%Qc else get3 f x y z) = Some (sample f X Y Z).
Proof.
  intros Hf Ht Hn. destruct test.
  - by rewrite Ht.
  - destruct Hn as (-> & -> & -> & Hx & Hy & Hz); [done|].
    by apply (sample_inside f a b c).
Qed.

Lemma stencil_minus (m dt d c : num) :
  (m - dt * d / c = m - (dt / c) * d)%Qc.
Proof. unfold Qcdiv. ring. Qed.

Lemma stencil_plus (e dt d c : num) :
  (e + dt * d / c = e + (dt / c) * d)%Qc.
Proof. unfold Qcdiv. ring. Qed.

(** ** Each kernel computes the specification's equation at its thread *)

Section KernelCells.
Variable d : SimulationData.
Variables ox oy oz : Z.
Variables cell dt : num.
Variables x y z : nat.
Hypothesis d_shape : well_shaped d (trips ox) (trips oy) (trips oz).
Hypothesis x_in : x < trips ox.
Hypothesis y_in : y < trips oy.
Hypothesis z_in : z < trips oz.

Let this : KernelThis := mkThis x y z ox oy oz cell.
Let X : Z := Z.of_nat x.
Let Y : Z := Z.of_nat y.
Let Z' : Z := Z.of_nat z.

Local Ltac field_shape :=
  destruct d_shape as (? & ? & ? & ? & ? & ? & ? & ?); eassumption.

Local Ltac bounds :=
  unfold trips in *;
  repeat match goal with
         | H : (_ >=? _)%Z = true |- _ => apply Z.geb_le in H
         | H : (_ >=? _)%Z = false |- _ =>
             rewrite Z.geb_leb in H; apply Z.leb_gt in H
         | H : (_ <? _)%Z = true |- _ => apply Z.ltb_lt in H
         | H : (_ <? _)%Z = false |- _ => apply Z.ltb_ge in H
         end;
  lia.

Local Ltac neighbour f x' y' z' X' Y' Z'' :=
  rewrite (guarded_read f (trips ox) (trips oy) (trips oz) _ x' y' z'
             X' Y' Z'');
  [ simpl
  | field_shape
  | let E := fresh in intros E;
    apply (sample_outside f (trips ox) (trips oy) (trips oz));
    [field_shape | bounds]
  | let E := fresh in intros E; repeat split; bounds ].

Local Ltac centre f :=
  rewrite (sample_inside f (trips ox) (trips oy) (trips oz) x y z);
  [ simpl | field_shape | done | done | done ].

Lemma updateMagneticX_cell :
  updateMagneticX this (electricFieldY d) (electricFieldZ d)
                  (magneticFieldX d) dt =
  Some (spec_Hx d cell dt X Y Z').
Proof.
  unfold updateMagneticX, spec_Hx, this. simpl.
  neighbour (electricFieldZ d) x (y + 1) z X (Y + 1)%Z Z'.
  neighbour (electricFieldY d) x y (z + 1) X Y (Z' + 1)%Z.
  centre (magneticFieldX d). centre (electricFieldZ d).
  centre (electricFieldY d). f_equal. apply stencil_minus.
Qed.

Lemma updateMagneticY_cell :
  updateMagneticY this (electricFieldX d) (electricFieldZ d)
                  (magneticFieldY d) dt =
  Some (spec_Hy d cell dt X Y Z').
Proof.
  unfold updateMagneticY, spec_Hy, this. simpl.
  neighbour (electricFieldZ d) (x + 1) y z (X + 1)%Z Y Z'.
  neighbour (electricFieldX d) x y (z + 1) X Y (Z' + 1)%Z.
  centre (magneticFieldY d). centre (electricFieldX d).
  centre (electricFieldZ d). f_equal. apply stencil_minus.
Qed.

Lemma updateMagneticZ_cell :
  updateMagneticZ this (electricFieldX d) (electricFieldY d)
                  (magneticFieldZ d) dt =
  Some (spec_Hz d cell dt X Y Z').
Proof.
  unfold updateMagneticZ, spec_Hz, this. simpl.
  neighbour (electricFieldY d) (x + 1) y z (X + 1)%Z Y Z'.
  neighbour (electricFieldX d) x (y + 1) z X (Y + 1)%Z Z'.
  centre (magneticFieldZ d). centre (electricFieldY d).
  centre (electricFieldX d). f_equal. apply stencil_minus.
Qed.

Lemma updateElectricX_cell :
  updateElectricX this (magneticFieldY d) (magneticFieldZ d)
                  (electricFieldX d) dt =
  Some (spec_Ex d cell dt X Y Z').
Proof.
  unfold updateElectricX, spec_Ex, this. simpl.
  neighbour (magneticFieldZ d) x (y - 1) z X (Y - 1)%Z Z'.
  neighbour (magneticFieldY d) x y (z - 1) X Y (Z' - 1)%Z.
  centre (electricFieldX d). centre (magneticFieldZ d).
  centre (magneticFieldY d). f_equal. apply stencil_plus.
Qed.

Lemma updateElectricY_cell :
  updateElectricY this (magneticFieldX d) (magneticFieldZ d)
                  (electricFieldY d) dt =
  Some (spec_Ey d cell dt X Y Z').
Proof.
  unfold updateElectricY, spec_Ey, this. simpl.
  neighbour (magneticFieldZ d) (x - 1) y z (X - 1)%Z Y Z'.
  neighbour (magneticFieldX d) x y (z - 1) X Y (Z' - 1)%Z.
  centre (electricFieldY d). centre (magneticFieldX d).
  centre (magneticFieldZ d). f_equal. apply stencil_plus.
Qed.

Lemma updateElectricZ_cell :
  updateElectricZ this (magneticFieldX d) (magneticFieldY d)
                  (electricFieldZ d) dt =
  Some (spec_Ez d cell dt X Y Z').
Proof.
  unfold updateElectricZ, spec_Ez, this. simpl.
  neighbour (magneticFieldY d) (x - 1) y z (X - 1)%Z Y Z'.
  neighbour (magneticFieldX d) x (y - 1) z X (Y - 1)%Z Z'.
  centre (electricFieldZ d). centre (magneticFieldY d).
  centre (magneticFieldX d). f_equal. apply stencil_plus.
Qed.
End KernelCells.

(** ** The half-steps on a simulator whose fields have the grid's shape *)

(** Splits a conjunction of per-field facts without unfolding the facts. *)
Ltac split_fields :=
  repeat match goal with |- _ /\ _ => split end.

Lemma well_shaped_grid3 (d : SimulationData) (a b c : nat)
    (set : ScalarField3D -> SimulationData -> SimulationData)
    (f : ScalarField3D) :
  set = set_electricFieldX \/ set = set_electricFieldY \/
  set = set_electricFieldZ \/ set = set_magneticFieldX \/
  set = set_magneticFieldY \/ set = set_magneticFieldZ ->
  has_shape f a b c -> well_shaped d a b c -> well_shaped (set f d) a b c.
Proof.
  intros Hset Hf (? & ? & ? & ? & ? & ? & ? & ?).
  destruct Hset as [->|[->|[->|[->|[->| ->]]]]];
    unfold well_shaped; simpl; split_fields; assumption.
Qed.

Lemma stepMagnetic_total (sim : FDTDSimulator) (dt : num) :
  shaped sim -> 0 < dimY sim -> 0 < dimZ sim ->
  stepMagnetic sim dt = Returned (spec_stepMagnetic sim dt).
Proof.
  intros Hs Hy Hz. unfold stepMagnetic, assign.
  rewrite (launch_total updateMagneticX sim _ _ _ dt (fun x y z =>
    spec_Hx (data sim) (cellSize sim) dt
            (Z.of_nat x) (Z.of_nat y) (Z.of_nat z))); [|done|done|].
  2:{ intros x y z Hx Hy' Hz'. by apply updateMagneticX_cell. }
  match goal with |- context [with_data sim ?d1] =>
    assert (shaped (with_data sim d1)) as Hs1
      by (apply (well_shaped_grid3 (data sim)); [tauto|apply grid3_shape|done]);
    set (sim1 := with_data sim d1) in * end.
  rewrite (launch_total updateMagneticY sim1 _ _ _ dt (fun x y z =>
    spec_Hy (data sim) (cellSize sim) dt
            (Z.of_nat x) (Z.of_nat y) (Z.of_nat z))); [|done|done|].
  2:{ intros x y z Hx Hy' Hz'.
      by apply (updateMagneticY_cell (data sim1)). }
  match goal with |- context [with_data sim1 ?d2] =>
    assert (shaped (with_data sim1 d2)) as Hs2
      by (apply (well_shaped_grid3 (data sim1)); [tauto|apply grid3_shape|done]);
    set (sim2 := with_data sim1 d2) in * end.
  rewrite (launch_total updateMagneticZ sim2 _ _ _ dt (fun x y z =>
    spec_Hz (data sim) (cellSize sim) dt
            (Z.of_nat x) (Z.of_nat y) (Z.of_nat z))); [|done|done|].
  2:{ intros x y z Hx Hy' Hz'.
      by apply (updateMagneticZ_cell (data sim2)). }
  reflexivity.
Qed.

Lemma stepElectric_total (sim : FDTDSimulator) (dt : num) :
  shaped sim -> 0 < dimY sim -> 0 < dimZ sim ->
  stepElectric sim dt = Returned (spec_stepElectric sim dt).
Proof.
  intros Hs Hy Hz. unfold stepElectric, assign.
  rewrite (launch_total updateElectricX sim _ _ _ dt (fun x y z =>
    spec_Ex (data sim) (cellSize sim) dt
            (Z.of_nat x) (Z.of_nat y) (Z.of_nat z))); [|done|done|].
  2:{ intros x y z Hx Hy' Hz'. by apply updateElectricX_cell. }
  match goal with |- context [with_data sim ?d1] =>
    assert (shaped (with_data sim d1)) as Hs1
      by (apply (well_shaped_grid3 (data sim)); [tauto|apply grid3_shape|done]);
    set (sim1 := with_data sim d1) in * end.
  rewrite (launch_total updateElectricY sim1 _ _ _ dt (fun x y z =>
    spec_Ey (data sim) (cellSize sim) dt
            (Z.of_nat x) (Z.of_nat y) (Z.of_nat z))); [|done|done|].
  2:{ intros x y z Hx Hy' Hz'.
      by apply (updateElectricY_cell (data sim1)). }
  match goal with |- context [with_data sim1 ?d2] =>
    assert (shaped (with_data sim1 d2)) as Hs2
      by (apply (well_shaped_grid3 (data sim1)); [tauto|apply grid3_shape|done]);
    set (sim2 := with_data sim1 d2) in * end.
  rewrite (launch_total updateElectricZ sim2 _ _ _ dt (fun x y z =>
    spec_Ez (data sim) (cellSize sim) dt
            (Z.of_nat x) (Z.of_nat y) (Z.of_nat z))); [|done|done|].
  2:{ intros x y z Hx Hy' Hz'.
      by apply (updateElectricZ_cell (data sim2)). }
  reflexivity.
Qed.

Lemma spec_stepMagnetic_shaped (sim : FDTDSimulator) (dt : num) :
  shaped sim -> shaped (spec_stepMagnetic sim dt).
Proof.
  intros (? & ? & ? & ? & ? & ? & ? & ?).
  unfold shaped, well_shaped, spec_stepMagnetic. simpl.
  split_fields; try assumption; apply grid3_shape.
Qed.

Lemma spec_stepElectric_shaped (sim : FDTDSimulator) (dt : num) :
  shaped sim -> shaped (spec_stepElectric sim dt).
Proof.
  intros (? & ? & ? & ? & ? & ? & ? & ?).
  unfold shaped, well_shaped, spec_stepElectric. simpl.
  split_fields; try assumption; apply grid3_shape.
Qed.

(** ** The half-steps on any simulator *)

Lemma stepElectric_frame (sim : FDTDSimulator) (dt : num) :
  let sim' := state_of (stepElectric sim dt) in
  same_frame sim sim' /\
  magneticFieldX (data sim') = magneticFieldX (data sim) /\
  magneticFieldY (data sim') = magneticFieldY (data sim) /\
  magneticFieldZ (data sim') = magneticFieldZ (data sim).
Proof.
  unfold stepElectric, assign, same_frame.
  repeat (match goal with |- context [launch ?k ?s ?a ?b ?c ?t] =>
            destruct (launch k s a b c t) end; simpl);
    split_fields; reflexivity.
Qed.

Lemma stepMagnetic_frame (sim : FDTDSimulator) (dt : num) :
  let sim' := state_of (stepMagnetic sim dt) in
  same_frame sim sim' /\
  electricFieldX (data sim') = electricFieldX (data sim) /\
  electricFieldY (data sim') = electricFieldY (data sim) /\
  electricFieldZ (data sim') = electricFieldZ (data sim).
Proof.
  unfold stepMagnetic, assign, same_frame.
  repeat (match goal with |- context [launch ?k ?s ?a ?b ?c ?t] =>
            destruct (launch k s a b c t) end; simpl);
    split_fields; reflexivity.
Qed.

Lemma assign_shaped
    (set : ScalarField3D -> SimulationData -> SimulationData)
    (rhs : FDTDSimulator -> option ScalarField3D) (sim : FDTDSimulator)
    (rest : FDTDSimulator -> outcome) :
  set = set_electricFieldX \/ set = set_electricFieldY \/
  set = set_electricFieldZ \/ set = set_magneticFieldX \/
  set = set_magneticFieldY \/ set = set_magneticFieldZ ->
  (forall s f, rhs s = Some f -> has_shape f (dimX s) (dimY s) (dimZ s)) ->
  (forall s, shaped s -> shaped (state_of (rest s))) ->
  shaped sim -> shaped (state_of (assign set rhs sim rest)).
Proof.
  intros Hset Hrhs Hrest Hs. unfold assign.
  destruct (rhs sim) as [f|] eqn:Hf; [|done].
  apply Hrest. apply (well_shaped_grid3 (data sim)); [done| |done].
  by apply (Hrhs sim).
Qed.

Lemma stepElectric_shaped (sim : FDTDSimulator) (dt : num) :
  shaped sim -> shaped (state_of (stepElectric sim dt)).
Proof.
  unfold stepElectric.
  repeat (apply assign_shaped;
          [tauto | intros ? ?; apply launch_shape | clear sim; intros sim ]).
  intros (? & ? & ? & ? & ? & ? & ? & ?).
  unfold shaped, well_shaped. simpl. split_fields; assumption.
Qed.

Lemma stepMagnetic_shaped (sim : FDTDSimulator) (dt : num) :
  shaped sim -> shaped (state_of (stepMagnetic sim dt)).
Proof.
  unfold stepMagnetic.
  repeat (apply assign_shaped;
          [tauto | intros ? ?; apply launch_shape | clear sim; intros sim ]).
  intros (? & ? & ? & ? & ? & ? & ? & ?).
  unfold shaped, well_shaped. simpl. split_fields; assumption.
Qed.

(** On a grid without threads along y or z the first launch throws, so the
    half-step leaves the simulator as it found it. *)
Lemma stepElectric_degenerate (sim : FDTDSimulator) (dt : num) :
  dimY sim = 0 \/ dimZ sim = 0 -> stepElectric sim dt = Threw sim.
Proof.
  intros Hd. unfold stepElectric, assign.
  match goal with |- context [launch ?k ?s ?a ?b ?c ?t] =>
    destruct (launch k s a b c t) as [f|] eqn:Hf end; [|done].
  apply launch_returns_inv in Hf. lia.
Qed.

Lemma stepMagnetic_degenerate (sim : FDTDSimulator) (dt : num) :
  dimY sim = 0 \/ dimZ sim = 0 -> stepMagnetic sim dt = Threw sim.
Proof.
  intros Hd. unfold stepMagnetic, assign.
  match goal with |- context [launch ?k ?s ?a ?b ?c ?t] =>
    destruct (launch k s a b c t) as [f|] eqn:Hf end; [|done].
  apply launch_returns_inv in Hf. lia.
Qed.

Lemma initial_shaped (gs : Z * Z * Z) (cell : num) : shaped (initial gs cell).
Proof.
  destruct gs as [[gx gy] gz].
  unfold shaped, well_shaped, dimX, dimY, dimZ. simpl.
  split_fields; apply (grid3_shape (trips gx) (trips gy) (trips gz)).
Qed.

(** ** Arithmetic of times *)

Lemma num_of_Z_0 : num_of_Z 0 = 0%Qc.
Proof. apply Qc_is_canon. reflexivity. Qed.

Lemma num_of_Z_2 : num_of_Z 2 = (1 + 1)%Qc.
Proof. apply Qc_is_canon. reflexivity. Qed.

Lemma half_half (dt : num) : (dt / num_of_Z 2 + dt / num_of_Z 2 = dt)%Qc.
Proof. rewrite num_of_Z_2. field. discriminate. Qed.

Lemma num_of_Z_succ (k : nat) :
  num_of_Z (Z.of_nat (S k)) = (num_of_Z (Z.of_nat k) + 1)%Qc.
Proof.
  apply Qc_is_canon. unfold num_of_Z. simpl.
  rewrite !Qred_correct, Nat2Z.inj_succ, <- Z.add_1_r, inject_Z_plus.
  reflexivity.
Qed.

(** ** The zero state *)

Lemma zeroField_grid3 (gs : Z * Z * Z) :
  zeroField gs =
  grid3 (trips gs.1.1) (trips gs.1.2) (trips gs.2) (fun _ _ _ => 0%Qc).
Proof. by destruct gs as [[gx gy] gz]. Qed.

Lemma get3_zeroField (gs : Z * Z * Z) (x y z : nat) (v : num) :
  get3 (zeroField gs) x y z = Some v -> v = 0%Qc.
Proof.
  rewrite zeroField_grid3. intros Hv.
  destruct (get3_in_range _ _ _ _ x y z v (grid3_shape _ _ _ _) Hv)
    as (Hx & Hy & Hz).
  rewrite grid3_get3 in Hv by done. congruence.
Qed.

Lemma sample_zeroField (gs : Z * Z * Z) (X Y Z : Z) :
  sample (zeroField gs) X Y Z = 0%Qc.
Proof.
  unfold sample. destruct (_ || _ || _)%bool; [done|].
  destruct (get3 _ _ _ _) as [v|] eqn:Hv; [|done].
  simpl. by eapply get3_zeroField.
Qed.

Lemma grid3_ext {T : Type} (a b c : nat) (g g' : nat -> nat -> nat -> T) :
  (forall i j k, i < a -> j < b -> k < c -> g i j k = g' i j k) ->
  grid3 a b c g = grid3 a b c g'.
Proof.
  intros H. apply (field_ext _ _ a b c); try apply grid3_shape.
  intros x y z Hx Hy Hz. rewrite !grid3_get3 by done. f_equal. by apply H.
Qed.

Lemma spec_stepElectric_zero (sim : FDTDSimulator) (dt : num) :
  all_zero sim -> all_zero (spec_stepElectric sim dt).
Proof.
  intros (Ex & Ey & Ez & Hx & Hy & Hz).
  unfold all_zero, spec_stepElectric. simpl.
  split_fields; try assumption;
    rewrite zeroField_grid3; apply grid3_ext; intros i j k _ _ _;
    unfold spec_Ex, spec_Ey, spec_Ez;
    rewrite ?Ex, ?Ey, ?Ez, ?Hx, ?Hy, ?Hz, !sample_zeroField;
    unfold Qcdiv; ring.
Qed.

Lemma spec_stepMagnetic_zero (sim : FDTDSimulator) (dt : num) :
  all_zero sim -> all_zero (spec_stepMagnetic sim dt).
Proof.
  intros (Ex & Ey & Ez & Hx & Hy & Hz).
  unfold all_zero, spec_stepMagnetic. simpl.
  split_fields; try assumption;
    rewrite zeroField_grid3; apply grid3_ext; intros i j k _ _ _;
    unfold spec_Hx, spec_Hy, spec_Hz;
    rewrite ?Ex, ?Ey, ?Ez, ?Hx, ?Hy, ?Hz, !sample_zeroField;
    unfold Qcdiv; ring.
Qed.

Lemma initial_all_zero (gs : Z * Z * Z) (cell : num) :
  all_zero (initial gs cell).
Proof. unfold all_zero. simpl. split_fields; reflexivity. Qed.

(** A half-step either returns the specification's next state or, on a grid
    without threads along y or z, throws at once. *)
Lemma stepElectric_cases (sim : FDTDSimulator) (dt : num) :
  shaped sim ->
  (0 < dimY sim /\ 0 < dimZ sim /\
   stepElectric sim dt = Returned (spec_stepElectric sim dt)) \/
  ((dimY sim = 0 \/ dimZ sim = 0) /\ stepElectric sim dt = Threw sim).
Proof.
  intros Hs.
  destruct (decide (0 < dimY sim /\ 0 < dimZ sim)) as [[Hy Hz]|Hn].
  - left. split_fields; try done. by apply stepElectric_total.
  - right. assert (dimY sim = 0 \/ dimZ sim = 0) as Hd by lia.
    split; [done|]. by apply stepElectric_degenerate.
Qed.

Lemma stepMagnetic_cases (sim : FDTDSimulator) (dt : num) :
  shaped sim ->
  (0 < dimY sim /\ 0 < dimZ sim /\
   stepMagnetic sim dt = Returned (spec_stepMagnetic sim dt)) \/
  ((dimY sim = 0 \/ dimZ sim = 0) /\ stepMagnetic sim dt = Threw sim).
Proof.
  intros Hs.
  destruct (decide (0 < dimY sim /\ 0 < dimZ sim)) as [[Hy Hz]|Hn].
  - left. split_fields; try done. by apply stepMagnetic_total.
  - right. assert (dimY sim = 0 \/ dimZ sim = 0) as Hd by lia.
    split; [done|]. by apply stepMagnetic_degenerate.
Qed.

(** ** Sequences of calls *)

Lemma perform_shaped (c : call) (sim : FDTDSimulator) :
  shaped sim -> shaped (state_of (perform c sim)).
Proof.
  destruct c; simpl; [apply stepElectric_shaped|apply stepMagnetic_shaped].
Qed.

Lemma perform_frame (c : call) (sim : FDTDSimulator) :
  same_frame sim (state_of (perform c sim)).
Proof.
  destruct c; simpl;
    [apply stepElectric_frame|apply stepMagnetic_frame].
Qed.

Lemma same_frame_trans (s1 s2 s3 : FDTDSimulator) :
  same_frame s1 s2 -> same_frame s2 s3 -> same_frame s1 s3.
Proof.
  unfold same_frame. intros (? & ? & ? & ?) (? & ? & ? & ?).
  split_fields; congruence.
Qed.

Lemma run_calls_shaped (cs : list call) (sim : FDTDSimulator) :
  shaped sim -> shaped (run_calls cs sim).
Proof.
  revert sim. induction cs as [|c cs IH]; intros sim Hs; [done|].
  simpl. apply IH. by apply perform_shaped.
Qed.

Lemma run_calls_frame (cs : list call) (sim : FDTDSimulator) :
  same_frame sim (run_calls cs sim).
Proof.
  revert sim. induction cs as [|c cs IH]; intros sim.
  - unfold same_frame. simpl. split_fields; reflexivity.
  - simpl. eapply same_frame_trans; [apply perform_frame|apply IH].
Qed.

Lemma perform_returns (c : call) (sim : FDTDSimulator) :
  shaped sim -> 0 < dimY sim -> 0 < dimZ sim ->
  completed (perform c sim) = true.
Proof.
  intros Hs Hy Hz. destruct c as [dt|dt]; simpl.
  - by rewrite stepElectric_total.
  - by rewrite stepMagnetic_total.
Qed.

Lemma stepElectric_time (sim sim' : FDTDSimulator) (dt : num) :
  stepElectric sim dt = Returned sim' ->
  time (data sim') = (time (data sim) + dt / num_of_Z 2)%Qc.
Proof.
  unfold stepElectric, assign.
  repeat (match goal with |- context [launch ?k ?s ?a ?b ?c ?t] =>
            destruct (launch k s a b c t) end; simpl);
    intros [= <-]; reflexivity.
Qed.

Lemma stepMagnetic_time (sim sim' : FDTDSimulator) (dt : num) :
  stepMagnetic sim dt = Returned sim' ->
  time (data sim') = (time (data sim) + dt / num_of_Z 2)%Qc.
Proof.
  unfold stepMagnetic, assign.
  repeat (match goal with |- context [launch ?k ?s ?a ?b ?c ?t] =>
            destruct (launch k s a b c t) end; simpl);
    intros [= <-]; reflexivity.
Qed.

Lemma cycles_time (k : nat) (dt : num) (sim : FDTDSimulator) :
  shaped sim -> 0 < dimY sim -> 0 < dimZ sim ->
  exists sim', cycles k dt sim = Returned sim' /\
    time (data sim') = (time (data sim) + num_of_nat k * dt)%Qc.
Proof.
  revert sim. induction k as [|k IH]; intros sim Hs Hy Hz.
  - exists sim. split; [done|]. unfold num_of_nat.
    change (Z.of_nat 0) with 0%Z. rewrite num_of_Z_0. ring.
  - simpl. unfold leapfrog.
    rewrite stepElectric_total by done.
    rewrite stepMagnetic_total by (try apply spec_stepElectric_shaped; done).
    destruct (IH (spec_stepMagnetic (spec_stepElectric sim dt) dt))
      as (sim' & Hk & Ht).
    { by apply spec_stepMagnetic_shaped, spec_stepElectric_shaped. }
    { done. }
    { done. }
    exists sim'. split; [done|]. rewrite Ht. simpl.
    unfold num_of_nat. rewrite num_of_Z_succ.
    pose proof (half_half dt) as Hh.
    set (h := (dt / num_of_Z 2)%Qc) in *.
    replace ((num_of_Z (Z.of_nat k) + 1) * dt)%Qc
      with (num_of_Z (Z.of_nat k) * dt + (h + h))%Qc by (rewrite Hh; ring).
    ring.
Qed.

Lemma stepElectric_materials (sim : FDTDSimulator) (dt : num)
    (eps mu : ScalarField3D) :
  stepElectric (with_materials eps mu sim) dt =
  map_outcome (with_materials eps mu) (stepElectric sim dt).
Proof.
  destruct sim as [[t ex ey ez hx hy hz e0 m0] gs cell].
  unfold stepElectric, assign, launch, with_materials, with_data,
    set_materials.
  cbn -[runKernel copyScalarFieldReverse Qcplus Qcdiv].
  repeat (match goal with |- context [mbind ?f ?r] =>
            destruct (mbind f r) end;
          cbn -[runKernel copyScalarFieldReverse Qcplus Qcdiv]);
    reflexivity.
Qed.

Lemma stepMagnetic_materials (sim : FDTDSimulator) (dt : num)
    (eps mu : ScalarField3D) :
  stepMagnetic (with_materials eps mu sim) dt =
  map_outcome (with_materials eps mu) (stepMagnetic sim dt).
Proof.
  destruct sim as [[t ex ey ez hx hy hz e0 m0] gs cell].
  unfold stepMagnetic, assign, launch, with_materials, with_data,
    set_materials.
  cbn -[runKernel copyScalarFieldReverse Qcplus Qcdiv].
  repeat (match goal with |- context [mbind ?f ?r] =>
            destruct (mbind f r) end;
          cbn -[runKernel copyScalarFieldReverse Qcplus Qcdiv]);
    reflexivity.
Qed.

(** * The claims *)

(** ** Construction *)

(** C1, as stated, fails: a grid with a zero and a negative dimension and a
    negative cell size is not a valid configuration, and the constructor
    returns a simulator for it all the same (with empty fields). *)
Lemma constructor_accepts_invalid_config :
  valid_config (0, -3, 2)%Z (- (1))%Qc = false /\
  FDTDSimulator_new (0, -3, 2)%Z (- (1))%Qc =
    Some (initial (0, -3, 2)%Z (- (1))%Qc) /\
  electricFieldX (data (initial (0, -3, 2)%Z (- (1))%Qc)) = [].
Proof. split_fields; reflexivity. Qed.

(** C1, amended: the constructor checks nothing.  For every grid size and
    every cell size it returns a simulator that keeps both arguments, has
    time 0 and has all eight fields equal to the zero-filled array of the
    grid, whose extent along an axis is the dimension when that is positive
    and 0 otherwise; every cell of that array reads 0. *)
Theorem constructor_always_returns (gs : Z * Z * Z) (cell : num) :
  exists sim,
    FDTDSimulator_new gs cell = Some sim /\
    gridSize sim = gs /\ cellSize sim = cell /\
    time (data sim) = 0%Qc /\
    electricFieldX (data sim) = zeroField gs /\
    electricFieldY (data sim) = zeroField gs /\
    electricFieldZ (data sim) = zeroField gs /\
    magneticFieldX (data sim) = zeroField gs /\
    magneticFieldY (data sim) = zeroField gs /\
    magneticFieldZ (data sim) = zeroField gs /\
    permittivity (data sim) = zeroField gs /\
    permeability (data sim) = zeroField gs /\
    has_shape (zeroField gs)
      (Z.to_nat gs.1.1) (Z.to_nat gs.1.2) (Z.to_nat gs.2) /\
    forall x y z : nat,
      (Z.of_nat x < gs.1.1)%Z -> (Z.of_nat y < gs.1.2)%Z ->
      (Z.of_nat z < gs.2)%Z ->
      get3 (zeroField gs) x y z = Some 0%Qc.
Proof.
  exists (initial gs cell). split_fields; try reflexivity.
  - rewrite zeroField_grid3. apply grid3_shape.
  - intros x y z Hx Hy Hz. rewrite zeroField_grid3.
    apply grid3_get3; unfold trips; lia.
Qed.

Lemma constructor_always_returns_witness :
  get3 (zeroField (2, 3, 4)%Z) 1 2 3 = Some 0%Qc.
Proof.
  destruct (constructor_always_returns (2, 3, 4)%Z 1%Qc)
    as (sim & _ & _ & _ & _ & _ & _ & _ & _ & _ & _ & _ & _ & _ & Hcell).
  apply Hcell; simpl; lia.
Defined.

(** ** The stencils *)

(** C2: on a simulator whose eight fields have the shape of its grid (and
    whose cell size is not zero), [stepMagnetic(dt)] returns, and at every
    in-range cell the new Hx, Hy and Hz are the values of the specification's
    forward-difference equations on the state before the call, a neighbour at
    index+1 outside of the grid counting as 0. *)
Theorem stepMagnetic_stencil (sim : FDTDSimulator) (dt : num) (x y z : nat) :
  shaped sim -> cellSize sim <> 0%Qc ->
  x < dimX sim -> y < dimY sim -> z < dimZ sim ->
  exists sim',
    stepMagnetic sim dt = Returned sim' /\
    get3 (magneticFieldX (data sim')) x y z =
      Some (spec_Hx (data sim) (cellSize sim) dt
                    (Z.of_nat x) (Z.of_nat y) (Z.of_nat z)) /\
    get3 (magneticFieldY (data sim')) x y z =
      Some (spec_Hy (data sim) (cellSize sim) dt
                    (Z.of_nat x) (Z.of_nat y) (Z.of_nat z)) /\
    get3 (magneticFieldZ (data sim')) x y z =
      Some (spec_Hz (data sim) (cellSize sim) dt
                    (Z.of_nat x) (Z.of_nat y) (Z.of_nat z)).
Proof.
  intros Hs _ Hx Hy Hz. exists (spec_stepMagnetic sim dt).
  split; [apply stepMagnetic_total; [done|lia|lia]|].
  unfold spec_stepMagnetic.
  cbn [data with_data magneticFieldX magneticFieldY magneticFieldZ].
  split_fields; rewrite grid3_get3 by done; reflexivity.
Qed.

Lemma stepMagnetic_stencil_witness :
  exists sim',
    stepMagnetic boundary_scene one_tenth = Returned sim' /\
    get3 (magneticFieldX (data sim')) 0 1 1 =
      Some (spec_Hx (data boundary_scene) (cellSize boundary_scene) one_tenth
                    (Z.of_nat 0) (Z.of_nat 1) (Z.of_nat 1)) /\
    get3 (magneticFieldY (data sim')) 0 1 1 =
      Some (spec_Hy (data boundary_scene) (cellSize boundary_scene) one_tenth
                    (Z.of_nat 0) (Z.of_nat 1) (Z.of_nat 1)) /\
    get3 (magneticFieldZ (data sim')) 0 1 1 =
      Some (spec_Hz (data boundary_scene) (cellSize boundary_scene) one_tenth
                    (Z.of_nat 0) (Z.of_nat 1) (Z.of_nat 1)).
Proof.
  apply (stepMagnetic_stencil boundary_scene one_tenth 0 1 1).
  - unfold shaped, well_shaped, has_shape. vm_compute.
    split_fields; repeat constructor.
  - vm_compute. discriminate.
  - vm_compute. lia.
  - vm_compute. lia.
  - vm_compute. lia.
Defined.

(** C3: on a simulator whose eight fields have the shape of its grid (and
    whose cell size is not zero), [stepElectric(dt)] returns, and at every
    in-range cell the new Ex, Ey and Ez are the values of the specification's
    backward-difference equations on the state before the call, a neighbour
    at index-1 below 0 counting as 0. *)
Theorem stepElectric_stencil (sim : FDTDSimulator) (dt : num) (x y z : nat) :
  shaped sim -> cellSize sim <> 0%Qc ->
  x < dimX sim -> y < dimY sim -> z < dimZ sim ->
  exists sim',
    stepElectric sim dt = Returned sim' /\
    get3 (electricFieldX (data sim')) x y z =
      Some (spec_Ex (data sim) (cellSize sim) dt
                    (Z.of_nat x) (Z.of_nat y) (Z.of_nat z)) /\
    get3 (electricFieldY (data sim')) x y z =
      Some (spec_Ey (data sim) (cellSize sim) dt
                    (Z.of_nat x) (Z.of_nat y) (Z.of_nat z)) /\
    get3 (electricFieldZ (data sim')) x y z =
      Some (spec_Ez (data sim) (cellSize sim) dt
                    (Z.of_nat x) (Z.of_nat y) (Z.of_nat z)).
Proof.
  intros Hs _ Hx Hy Hz. exists (spec_stepElectric sim dt).
  split; [apply stepElectric_total; [done|lia|lia]|].
  unfold spec_stepElectric.
  cbn [data with_data electricFieldX electricFieldY electricFieldZ].
  split_fields; rewrite grid3_get3 by done; reflexivity.
Qed.

Lemma stepElectric_stencil_witness :
  exists sim',
    stepElectric magnetised_scene one_tenth = Returned sim' /\
    get3 (electricFieldX (data sim')) 0 1 1 =
      Some (spec_Ex (data magnetised_scene) (cellSize magnetised_scene)
                    one_tenth (Z.of_nat 0) (Z.of_nat 1) (Z.of_nat 1)) /\
    get3 (electricFieldY (data sim')) 0 1 1 =
      Some (spec_Ey (data magnetised_scene) (cellSize magnetised_scene)
                    one_tenth (Z.of_nat 0) (Z.of_nat 1) (Z.of_nat 1)) /\
    get3 (electricFieldZ (data sim')) 0 1 1 =
      Some (spec_Ez (data magnetised_scene) (cellSize magnetised_scene)
                    one_tenth (Z.of_nat 0) (Z.of_nat 1) (Z.of_nat 1)).
Proof.
  apply (stepElectric_stencil magnetised_scene one_tenth 0 1 1).
  - unfold shaped, well_shaped, has_shape. vm_compute.
    split_fields; repeat constructor.
  - vm_compute. discriminate.
  - vm_compute. lia.
  - vm_compute. lia.
  - vm_compute. lia.
Defined.

(** ** The boundary scenario *)

(** C4, as stated, fails: after [stepMagnetic(0.1)] the cell [Hx[0][0][1]] does
    not hold 0.5. *)
Lemma boundary_cell_is_not_one_half :
  get3 (magneticFieldX
          (data (state_of (stepMagnetic boundary_scene one_tenth)))) 0 0 1
  <> Some one_half.
Proof. vm_compute. intros H. inversion H. Qed.

(** C4, amended: on the (2,2,2) grid with cell size 1 and [Ez[0][1][1] = 5],
    [stepMagnetic(0.1)] returns; [Hx[0][0][1]] is -0.5, the stencil value
    [0 - 0.1*((5 - 0) - (0 - 0))/1] whose y+1 neighbour is the cell that holds
    5, and [Hx[0][1][1]], whose y+1 neighbour is out of range and counts as 0,
    is [0 - 0.1*((0 - 5) - (0 - 0))/1 = 0.5]. *)
Theorem boundary_truncation_values :
  exists sim',
    stepMagnetic boundary_scene one_tenth = Returned sim' /\
    get3 (magneticFieldX (data sim')) 0 0 1 = Some (- one_half)%Qc /\
    (- one_half =
       0 - one_tenth * ((num_of_Z 5 - 0) - (0 - 0)) / num_of_Z 1)%Qc /\
    get3 (magneticFieldX (data sim')) 0 1 1 = Some one_half /\
    (one_half =
       0 - one_tenth * ((0 - num_of_Z 5) - (0 - 0)) / num_of_Z 1)%Qc.
Proof.
  eexists. split; [vm_compute; reflexivity|].
  split_fields; vm_compute; try f_equal; apply Qc_is_canon; reflexivity.
Qed.

(** ** Time *)

(** C5: on a grid with three positive dimensions, [stepElectric(dt)] and
    [stepMagnetic(dt)] return on every simulator whose fields have the grid's
    shape and add exactly dt/2 to the time; a call that returns adds dt/2 on
    any simulator; and [k] leapfrog cycles from the constructed state return
    with time [k * dt]. *)
Theorem time_accounting (gx gy gz : Z) (cell dt : num) (k : nat) :
  (0 < gx)%Z -> (0 < gy)%Z -> (0 < gz)%Z ->
  (forall sim, gridSize sim = (gx, gy, gz) -> shaped sim ->
     exists sim', stepElectric sim dt = Returned sim' /\
       time (data sim') = (time (data sim) + dt / num_of_Z 2)%Qc) /\
  (forall sim, gridSize sim = (gx, gy, gz) -> shaped sim ->
     exists sim', stepMagnetic sim dt = Returned sim' /\
       time (data sim') = (time (data sim) + dt / num_of_Z 2)%Qc) /\
  (forall sim sim', stepElectric sim dt = Returned sim' ->
     time (data sim') = (time (data sim) + dt / num_of_Z 2)%Qc) /\
  (forall sim sim', stepMagnetic sim dt = Returned sim' ->
     time (data sim') = (time (data sim) + dt / num_of_Z 2)%Qc) /\
  exists simk,
    cycles k dt (initial (gx, gy, gz) cell) = Returned simk /\
    time (data simk) = (num_of_nat k * dt)%Qc.
Proof.
  intros Hgx Hgy Hgz. split_fields.
  - intros sim Hg Hs. exists (spec_stepElectric sim dt).
    split; [|reflexivity].
    apply stepElectric_total; [done| |];
      unfold dimY, dimZ, trips; rewrite Hg; cbn [fst snd]; lia.
  - intros sim Hg Hs. exists (spec_stepMagnetic sim dt).
    split; [|reflexivity].
    apply stepMagnetic_total; [done| |];
      unfold dimY, dimZ, trips; rewrite Hg; cbn [fst snd]; lia.
  - intros sim sim'. apply stepElectric_time.
  - intros sim sim'. apply stepMagnetic_time.
  - destruct (cycles_time k dt (initial (gx, gy, gz) cell))
      as (simk & Hk & Ht).
    + apply initial_shaped.
    + unfold dimY, trips. cbn [initial gridSize fst snd]. lia.
    + unfold dimZ, trips. cbn [initial gridSize fst snd]. lia.
    + exists simk. split; [done|]. rewrite Ht.
      cbn [initial data time]. ring.
Qed.

Lemma time_accounting_witness :
  exists simk,
    cycles 3 one_tenth (initial (2, 2, 2)%Z (num_of_Z 1)) = Returned simk /\
    time (data simk) = (num_of_nat 3 * one_tenth)%Qc.
Proof.
  apply (time_accounting 2 2 2 (num_of_Z 1) one_tenth 3); lia.
Defined.

(** ** The zero state *)

(** C6: for every grid size, every cell size other than zero and every dt,
    after [stepElectric(dt)] then [stepMagnetic(dt)] on the constructed state
    all six electric and magnetic components are the zero field of the grid,
    and on a grid with three positive dimensions both calls return. *)
Theorem zero_state_fixed_point (gs : Z * Z * Z) (cell dt : num) :
  cell <> 0%Qc ->
  let sim' := state_of (leapfrog dt (initial gs cell)) in
  (electricFieldX (data sim') = zeroField gs /\
   electricFieldY (data sim') = zeroField gs /\
   electricFieldZ (data sim') = zeroField gs /\
   magneticFieldX (data sim') = zeroField gs /\
   magneticFieldY (data sim') = zeroField gs /\
   magneticFieldZ (data sim') = zeroField gs) /\
  ((0 < gs.1.1)%Z -> (0 < gs.1.2)%Z -> (0 < gs.2)%Z ->
   completed (leapfrog dt (initial gs cell)) = true).
Proof.
  intros _. cbv zeta.
  pose proof (initial_shaped gs cell) as Hs.
  pose proof (initial_all_zero gs cell) as Hz.
  set (sim0 := initial gs cell) in *.
  assert (gridSize sim0 = gs) as Hg by reflexivity.
  unfold leapfrog.
  destruct (stepElectric_cases sim0 dt Hs) as [(Hy & Hz' & ->)|[Hd ->]].
  - pose proof (spec_stepElectric_shaped sim0 dt Hs) as Hs1.
    pose proof (spec_stepElectric_zero sim0 dt Hz) as Hz1.
    destruct (stepMagnetic_cases (spec_stepElectric sim0 dt) dt Hs1)
      as [(_ & _ & ->)|[Hd ->]].
    + split; [|done].
      apply (spec_stepMagnetic_zero (spec_stepElectric sim0 dt) dt Hz1).
    + split; [exact Hz1|]. intros. exfalso.
      change (dimY sim0 = 0 \/ dimZ sim0 = 0) in Hd. lia.
  - split; [exact Hz|]. intros Hgx Hgy Hgz. exfalso.
    unfold dimY, dimZ, trips in Hd. rewrite Hg in Hd. lia.
Qed.

Lemma zero_state_fixed_point_witness :
  magneticFieldX
    (data (state_of (leapfrog one_tenth (initial (2, 3, 4)%Z (num_of_Z 1)))))
    = zeroField (2, 3, 4)%Z /\
  completed (leapfrog one_tenth (initial (2, 3, 4)%Z (num_of_Z 1))) = true.
Proof.
  assert (num_of_Z 1 <> 0%Qc) as Hc by (vm_compute; discriminate).
  destruct (zero_state_fixed_point (2, 3, 4)%Z (num_of_Z 1) one_tenth Hc)
    as [(_ & _ & _ & Hx & _ & _) Hret].
  split; [exact Hx|]. apply Hret; simpl; lia.
Defined.

(** ** Shapes *)

(** C7: after any finite sequence of [stepElectric] and [stepMagnetic] calls
    on a simulator constructed with grid (Nx, Ny, Nz), the grid is unchanged
    and each of the eight fields has shape (Nx, Ny, Nz); when the three
    dimensions are positive, every further call returns. *)
Theorem shape_invariance (Nx Ny Nz : nat) (cell : num) (calls : list call) :
  let sim :=
    run_calls calls (initial (Z.of_nat Nx, Z.of_nat Ny, Z.of_nat Nz) cell) in
  grid_is sim Nx Ny Nz /\
  well_shaped (data sim) Nx Ny Nz /\
  (0 < Nx -> 0 < Ny -> 0 < Nz ->
   forall c, completed (perform c sim) = true).
Proof.
  cbv zeta.
  set (sim0 := initial (Z.of_nat Nx, Z.of_nat Ny, Z.of_nat Nz) cell).
  pose proof (run_calls_shaped calls sim0 (initial_shaped _ _)) as Hs.
  destruct (run_calls_frame calls sim0) as (Hg & _).
  change (gridSize sim0) with (Z.of_nat Nx, Z.of_nat Ny, Z.of_nat Nz) in Hg.
  assert (dimX (run_calls calls sim0) = Nx /\
          dimY (run_calls calls sim0) = Ny /\
          dimZ (run_calls calls sim0) = Nz) as (Dx & Dy & Dz).
  { unfold dimX, dimY, dimZ. rewrite Hg. cbn [fst snd].
    by rewrite !trips_of_nat. }
  split_fields.
  - exact Hg.
  - unfold shaped in Hs. by rewrite Dx, Dy, Dz in Hs.
  - intros _ Hy Hz c. apply perform_returns; [done|lia|lia].
Qed.

Lemma shape_invariance_witness :
  completed
    (perform (StepMagnetic one_tenth)
       (run_calls [StepElectric one_tenth; StepMagnetic one_tenth;
                   StepMagnetic one_half]
          (initial (Z.of_nat 2, Z.of_nat 3, Z.of_nat 4) (num_of_Z 1)))) = true.
Proof.
  destruct (shape_invariance 2 3 4 (num_of_Z 1)
              [StepElectric one_tenth; StepMagnetic one_tenth;
               StepMagnetic one_half]) as (_ & _ & Hret).
  apply Hret; lia.
Defined.

(** ** The layout adapter *)

(** C8, as stated, fails: the empty array has shape [0][2][3] and an array of
    two empty planes has shape [2][0][3]; on both the adapter throws. *)
Lemma adapter_throws_without_first_row :
  has_shape ([] : ScalarField3D) 0 2 3 /\
  copyScalarFieldReverse [] = None /\
  has_shape ([[]; []] : ScalarField3D) 2 0 3 /\
  copyScalarFieldReverse [[]; []] = None.
Proof.
  split_fields; try reflexivity; unfold has_shape; repeat constructor.
Qed.

(** C8, amended: for every input array of shape [A][B][C] with A >= 1 and
    B >= 1 the adapter returns a new array of shape [C][B][A] whose element at
    [c][b][a] is the input's element at [a][b][c], for all indices (both are
    absent together outside of the shape). *)
Theorem adapter_reindexes (field : ScalarField3D) (A B C : nat) :
  has_shape field A B C -> 0 < A -> 0 < B ->
  exists r,
    copyScalarFieldReverse field = Some r /\
    has_shape r C B A /\
    forall a b c, get3 r c b a = get3 field a b c.
Proof.
  intros Hf HA HB.
  destruct (copy_total field A B C Hf HA HB) as (r & Hr & Hs & Hc).
  exists r. split_fields; try done.
  intros a b c.
  destruct (decide (a < A /\ b < B /\ c < C)) as [(Ha & Hb & Hcc)|Hn].
  - by apply Hc.
  - rewrite (get3_out_of_range r C B A), (get3_out_of_range field A B C);
      try done. lia.
Qed.

Lemma adapter_reindexes_witness :
  exists r,
    copyScalarFieldReverse
      [[[num_of_Z 1; num_of_Z 2; num_of_Z 3];
        [num_of_Z 4; num_of_Z 5; num_of_Z 6]]] = Some r /\
    has_shape r 3 2 1 /\
    forall a b c,
      get3 r c b a =
      get3 [[[num_of_Z 1; num_of_Z 2; num_of_Z 3];
             [num_of_Z 4; num_of_Z 5; num_of_Z 6]]] a b c.
Proof.
  apply (adapter_reindexes _ 1 2 3); [|lia|lia].
  unfold has_shape. simpl. repeat constructor.
Defined.

(** ** Frames *)

(** C9: whether it returns or throws, [stepElectric(dt)] leaves the three
    magnetic fields, permittivity and permeability as they were, and
    [stepMagnetic(dt)] leaves the three electric fields, permittivity and
    permeability as they were. *)
Theorem half_step_frames (sim : FDTDSimulator) (dt : num) :
  (let sim' := state_of (stepElectric sim dt) in
   magneticFieldX (data sim') = magneticFieldX (data sim) /\
   magneticFieldY (data sim') = magneticFieldY (data sim) /\
   magneticFieldZ (data sim') = magneticFieldZ (data sim) /\
   permittivity (data sim') = permittivity (data sim) /\
   permeability (data sim') = permeability (data sim)) /\
  (let sim' := state_of (stepMagnetic sim dt) in
   electricFieldX (data sim') = electricFieldX (data sim) /\
   electricFieldY (data sim') = electricFieldY (data sim) /\
   electricFieldZ (data sim') = electricFieldZ (data sim) /\
   permittivity (data sim') = permittivity (data sim) /\
   permeability (data sim') = permeability (data sim)).
Proof.
  cbv zeta.
  destruct (stepElectric_frame sim dt) as ((_ & _ & ? & ?) & ? & ? & ?).
  destruct (stepMagnetic_frame sim dt) as ((_ & _ & ? & ?) & ? & ? & ?).
  split_fields; assumption.
Qed.

(** ** Material fields *)

(** C10: the constructor sets permittivity and permeability to the zero field
    of the grid (every cell present reads 0, which is not 1); a half-step run
    with other material fields gives the same outcome but for those fields,
    so it does not read them; and after every finite sequence of calls both
    are still the zero field. *)
Theorem materials_stay_zero (gs : Z * Z * Z) (cell : num) :
  (FDTDSimulator_new gs cell = Some (initial gs cell) /\
   permittivity (data (initial gs cell)) = zeroField gs /\
   permeability (data (initial gs cell)) = zeroField gs) /\
  (forall x y z v, get3 (zeroField gs) x y z = Some v ->
     v = 0%Qc /\ v <> 1%Qc) /\
  (forall sim dt eps mu,
     stepElectric (with_materials eps mu sim) dt =
       map_outcome (with_materials eps mu) (stepElectric sim dt) /\
     stepMagnetic (with_materials eps mu sim) dt =
       map_outcome (with_materials eps mu) (stepMagnetic sim dt)) /\
  (forall calls,
     permittivity (data (run_calls calls (initial gs cell))) = zeroField gs /\
     permeability (data (run_calls calls (initial gs cell))) = zeroField gs).
Proof.
  split_fields; try reflexivity.
  - intros x y z v Hv. apply get3_zeroField in Hv. subst v.
    split; [done|discriminate].
  - intros sim dt eps mu.
    split; [apply stepElectric_materials|apply stepMagnetic_materials].
  - intros calls.
    destruct (run_calls_frame calls (initial gs cell)) as (_ & _ & He & Hm).
    split; [exact He|exact Hm].
Qed.

Lemma materials_stay_zero_witness : (0 = 0 /\ 0 <> 1)%Qc.
Proof.
  destruct (materials_stay_zero (2, 2, 2)%Z (num_of_Z 1))
    as (_ & Hcells & _ & _).
  apply (Hcells 1 0 1 0%Qc). reflexivity.
Defined.

(** * Further properties of the code *)

(** ** [reverse] *)

Lemma reverse_loop_mirrors {T : Type} (x : list T) (n : nat) :
  n <= length x ->
  exists y, reverse_loop x n = Some y /\
    length y = n /\
    forall i, i < n -> y !! i = x !! (n - 1 - i).
Proof.
  induction n as [|k IH]; intros Hn.
  - exists []. split_fields; try done. intros i Hi. lia.
  - destruct (lookup_lt_is_Some_2 x k) as [v Hv]; [lia|].
    destruct IH as (rest & Hrest & Hlen & Hat); [lia|].
    exists (v :: rest). simpl. rewrite Hv. simpl. rewrite Hrest. simpl.
    split_fields; [done|by rewrite Hlen|].
    intros [|j] Hj.
    + rewrite !Nat.sub_0_r. by rewrite Hv.
    + rewrite Nat.sub_0_r. replace (k - S j) with (k - 1 - j) by lia.
      apply Hat. lia.
Qed.

(** [reverse] always returns; its result has the length of the argument and
    holds at index [i] what the argument holds at index [length - 1 - i]. *)
Theorem reverse_mirrors {T : Type} (x : list T) :
  exists y, reverse x = Some y /\
    length y = length x /\
    forall i, i < length x -> y !! i = x !! (length x - 1 - i).
Proof. apply reverse_loop_mirrors. done. Qed.

Lemma reverse_mirrors_witness :
  exists y, reverse [10; 20; 30] = Some y /\
    length y = 3 /\ y !! 0 = Some 30 /\ y !! 2 = Some 10.
Proof.
  destruct (reverse_mirrors [10; 20; 30]) as (y & Hy & Hlen & Hat).
  exists y. split_fields; [exact Hy|exact Hlen| |].
  - apply (Hat 0). simpl. lia.
  - apply (Hat 2). simpl. lia.
Defined.

(** Reversing twice gives the argument back. *)
Theorem reverse_twice {T : Type} (x : list T) :
  reverse x ≫= reverse = Some x.
Proof.
  destruct (reverse_loop_mirrors x (length x)) as (y & Hy & Hlen & Hat);
    [done|].
  destruct (reverse_loop_mirrors y (length y)) as (w & Hw & Hlenw & Hatw);
    [done|].
  unfold reverse. rewrite Hy. simpl. rewrite Hw. f_equal.
  apply list_eq. intros i.
  destruct (decide (i < length x)) as [Hi|Hi].
  - rewrite Hatw, Hat by lia. f_equal. lia.
  - rewrite !(proj2 (lookup_ge_None _ _)); [done|lia|lia].
Qed.

(** ** [makeField3D] *)

(** The array [makeField3D] builds holds [getValue([x, y, z])] at every index
    triple below the three dimensions and nothing anywhere else; a dimension
    that is not positive leaves no cell at all. *)
Theorem makeField3D_lookup {T : Type} (s0 s1 s2 : Z)
    (getValue : nat * nat * nat -> T) (x y z : nat) :
  get3 (makeField3D (s0, s1, s2) getValue) x y z =
  if decide ((Z.of_nat x < s0)%Z /\ (Z.of_nat y < s1)%Z /\
             (Z.of_nat z < s2)%Z)
  then Some (getValue (x, y, z)) else None.
Proof.
  rewrite makeField3D_grid3. case_decide as Hd.
  - apply grid3_get3; unfold trips; lia.
  - apply (get3_out_of_range _ (trips s0) (trips s1) (trips s2));
      [apply grid3_shape|unfold trips; lia].
Qed.

(** ** The layout adapter, again *)

(** Applying the adapter twice to an array with at least one cell gives the
    array back. *)
Theorem adapter_twice (field : ScalarField3D) (A B C : nat) :
  has_shape field A B C -> 0 < A -> 0 < B -> 0 < C ->
  copyScalarFieldReverse field ≫= copyScalarFieldReverse = Some field.
Proof.
  intros Hf HA HB HC.
  destruct (copy_total field A B C Hf HA HB) as (r & Hr & Hs & Hc).
  destruct (copy_total r C B A Hs HC HB) as (w & Hw & Hsw & Hcw).
  rewrite Hr. simpl. rewrite Hw. f_equal.
  apply (field_ext w field A B C); try done.
  intros a b c Ha Hb Hcc. rewrite Hcw, Hc; done.
Qed.

Lemma adapter_twice_witness :
  copyScalarFieldReverse
    [[[num_of_Z 1; num_of_Z 2; num_of_Z 3];
      [num_of_Z 4; num_of_Z 5; num_of_Z 6]]] ≫= copyScalarFieldReverse =
  Some [[[num_of_Z 1; num_of_Z 2; num_of_Z 3];
         [num_of_Z 4; num_of_Z 5; num_of_Z 6]]].
Proof.
  apply (adapter_twice _ 1 2 3); [|lia|lia|lia].
  unfold has_shape. simpl. repeat constructor.
Defined.




(** ** Which fields a half-step reads *)

Lemma same_grid_dims (sim1 sim2 : FDTDSimulator) :
  gridSize sim1 = gridSize sim2 ->
  dimX sim1 = dimX sim2 /\ dimY sim1 = dimY sim2 /\ dimZ sim1 = dimZ sim2.
Proof. unfold dimX, dimY, dimZ. by intros ->. Qed.

(** Each new magnetic component is a function of its old value and of the two
    electric components of the other axes only: two simulators of one grid
    and cell size whose fields have the grid's shape get the same new Hx when
    they agree on Hx, Ey, Ez, the same new Hy when they agree on Hy, Ex, Ez,
    and the same new Hz when they agree on Hz, Ex, Ey. *)
Theorem stepMagnetic_reads (sim1 sim2 : FDTDSimulator) (dt : num) :
  shaped sim1 -> shaped sim2 ->
  gridSize sim1 = gridSize sim2 -> cellSize sim1 = cellSize sim2 ->
  let d1 := data sim1 in
  let d2 := data sim2 in
  let d1' := data (state_of (stepMagnetic sim1 dt)) in
  let d2' := data (state_of (stepMagnetic sim2 dt)) in
  (magneticFieldX d1 = magneticFieldX d2 ->
   electricFieldY d1 = electricFieldY d2 ->
   electricFieldZ d1 = electricFieldZ d2 ->
   magneticFieldX d1' = magneticFieldX d2') /\
  (magneticFieldY d1 = magneticFieldY d2 ->
   electricFieldX d1 = electricFieldX d2 ->
   electricFieldZ d1 = electricFieldZ d2 ->
   magneticFieldY d1' = magneticFieldY d2') /\
  (magneticFieldZ d1 = magneticFieldZ d2 ->
   electricFieldX d1 = electricFieldX d2 ->
   electricFieldY d1 = electricFieldY d2 ->
   magneticFieldZ d1' = magneticFieldZ d2').
Proof.
  intros Hs1 Hs2 Hg Hc. cbv zeta.
  destruct (same_grid_dims sim1 sim2 Hg) as (Dx & Dy & Dz).
  destruct (stepMagnetic_cases sim1 dt Hs1) as [(Hy & Hz & ->)|[Hd ->]];
    destruct (stepMagnetic_cases sim2 dt Hs2) as [(Hy2 & Hz2 & ->)|[Hd2 ->]];
    try (exfalso; lia); [|by split_fields].
  unfold spec_stepMagnetic, spec_Hx, spec_Hy, spec_Hz.
  cbn [state_of data with_data magneticFieldX magneticFieldY magneticFieldZ].
  rewrite Dx, Dy, Dz, Hc.
  split_fields; intros -> -> ->; reflexivity.
Qed.

Lemma stepMagnetic_reads_witness :
  magneticFieldX (data (state_of (stepMagnetic boundary_scene one_tenth))) =
  magneticFieldX
    (data (state_of (stepMagnetic
       (with_data boundary_scene
          (set_electricFieldX
             (write_cell (electricFieldX (data boundary_scene)) 1 0 1
                         (num_of_Z 7))
             (data boundary_scene))) one_tenth))).
Proof.
  refine (proj1 (stepMagnetic_reads boundary_scene _ one_tenth _ _ _ _)
            _ _ _);
    try reflexivity;
    unfold shaped, well_shaped, has_shape; vm_compute;
    split_fields; repeat constructor.
Defined.

(** The same for the electric half-step: the new Ex depends on Ex, Hy, Hz
    only, the new Ey on Ey, Hx, Hz only, the new Ez on Ez, Hx, Hy only. *)
Theorem stepElectric_reads (sim1 sim2 : FDTDSimulator) (dt : num) :
  shaped sim1 -> shaped sim2 ->
  gridSize sim1 = gridSize sim2 -> cellSize sim1 = cellSize sim2 ->
  let d1 := data sim1 in
  let d2 := data sim2 in
  let d1' := data (state_of (stepElectric sim1 dt)) in
  let d2' := data (state_of (stepElectric sim2 dt)) in
  (electricFieldX d1 = electricFieldX d2 ->
   magneticFieldY d1 = magneticFieldY d2 ->
   magneticFieldZ d1 = magneticFieldZ d2 ->
   electricFieldX d1' = electricFieldX d2') /\
  (electricFieldY d1 = electricFieldY d2 ->
   magneticFieldX d1 = magneticFieldX d2 ->
   magneticFieldZ d1 = magneticFieldZ d2 ->
   electricFieldY d1' = electricFieldY d2') /\
  (electricFieldZ d1 = electricFieldZ d2 ->
   magneticFieldX d1 = magneticFieldX d2 ->
   magneticFieldY d1 = magneticFieldY d2 ->
   electricFieldZ d1' = electricFieldZ d2').
Proof.
  intros Hs1 Hs2 Hg Hc. cbv zeta.
  destruct (same_grid_dims sim1 sim2 Hg) as (Dx & Dy & Dz).
  destruct (stepElectric_cases sim1 dt Hs1) as [(Hy & Hz & ->)|[Hd ->]];
    destruct (stepElectric_cases sim2 dt Hs2) as [(Hy2 & Hz2 & ->)|[Hd2 ->]];
    try (exfalso; lia); [|by split_fields].
  unfold spec_stepElectric, spec_Ex, spec_Ey, spec_Ez.
  cbn [state_of data with_data electricFieldX electricFieldY electricFieldZ].
  rewrite Dx, Dy, Dz, Hc.
  split_fields; intros -> -> ->; reflexivity.
Qed.

Lemma stepElectric_reads_witness :
  electricFieldZ (data (state_of (stepElectric magnetised_scene one_tenth))) =
  electricFieldZ
    (data (state_of (stepElectric
       (with_data magnetised_scene
          (set_magneticFieldZ
             (write_cell (magneticFieldZ (data magnetised_scene)) 1 0 1
                         (num_of_Z 7))
             (data magnetised_scene))) one_tenth))).
Proof.
  refine (proj2 (proj2 (stepElectric_reads magnetised_scene _ one_tenth
                          _ _ _ _)) _ _ _);
    try reflexivity;
    unfold shaped, well_shaped, has_shape; vm_compute;
    split_fields; repeat constructor.
Defined.

(** ** Linearity of the half-steps *)

Lemma push_loop_fmap {T U : Type} (f : T -> U) (n : nat) (body : nat -> T) :
  f <$> push_loop n body = push_loop n (fun i => f (body i)).
Proof. unfold push_loop. by rewrite <- list_fmap_compose. Qed.

Lemma push_loop_ext {T : Type} (n : nat) (body body' : nat -> T) :
  (forall i, i < n -> body i = body' i) ->
  push_loop n body = push_loop n body'.
Proof.
  intros H. unfold push_loop. apply list_fmap_ext.
  intros i x Hx. apply lookup_seq in Hx as [-> Hi]. by apply H.
Qed.

Lemma push_loop_zip_with {T : Type} (f : T -> T -> T) (n : nat)
    (body body' : nat -> T) :
  zip_with f (push_loop n body) (push_loop n body') =
  push_loop n (fun i => f (body i) (body' i)).
Proof.
  unfold push_loop. generalize (seq 0 n). intros l.
  induction l as [|i l IH]; [done|]. cbn. by f_equal.
Qed.

Lemma scale_grid3 (k : num) (a b c : nat) (g : nat -> nat -> nat -> num) :
  scale_field k (grid3 a b c g) = grid3 a b c (fun x y z => (k * g x y z)%Qc).
Proof.
  unfold scale_field, grid3. rewrite push_loop_fmap.
  apply push_loop_ext. intros x _. rewrite push_loop_fmap.
  apply push_loop_ext. intros y _. by rewrite push_loop_fmap.
Qed.

Lemma add_grid3 (a b c : nat) (g h : nat -> nat -> nat -> num) :
  add_field (grid3 a b c g) (grid3 a b c h) =
  grid3 a b c (fun x y z => (g x y z + h x y z)%Qc).
Proof.
  unfold add_field, grid3. rewrite push_loop_zip_with.
  apply push_loop_ext. intros x _. rewrite push_loop_zip_with.
  apply push_loop_ext. intros y _. by rewrite push_loop_zip_with.
Qed.

(** A field of known shape is the grid of its samples. *)
Lemma shape_as_grid3 (f : ScalarField3D) (a b c : nat) :
  has_shape f a b c ->
  f = grid3 a b c (fun x y z =>
        sample f (Z.of_nat x) (Z.of_nat y) (Z.of_nat z)).
Proof.
  intros Hf. apply (field_ext _ _ a b c); [done|apply grid3_shape|].
  intros x y z Hx Hy Hz. rewrite grid3_get3 by done.
  by apply (sample_inside f a b c).
Qed.

Lemma scale_shape (k : num) (f : ScalarField3D) (a b c : nat) :
  has_shape f a b c -> has_shape (scale_field k f) a b c.
Proof.
  intros Hf. rewrite (shape_as_grid3 f a b c Hf), scale_grid3.
  apply grid3_shape.
Qed.

Lemma add_shape (f g : ScalarField3D) (a b c : nat) :
  has_shape f a b c -> has_shape g a b c -> has_shape (add_field f g) a b c.
Proof.
  intros Hf Hg.
  rewrite (shape_as_grid3 f a b c Hf), (shape_as_grid3 g a b c Hg), add_grid3.
  apply grid3_shape.
Qed.

Lemma sample_grid3 (a b c : nat) (g : nat -> nat -> nat -> num) (X Y Z : Z) :
  sample (grid3 a b c g) X Y Z =
  if decide ((0 <= X < Z.of_nat a)%Z /\ (0 <= Y < Z.of_nat b)%Z /\
             (0 <= Z < Z.of_nat c)%Z)
  then g (Z.to_nat X) (Z.to_nat Y) (Z.to_nat Z) else 0%Qc.
Proof.
  case_decide as Hd.
  - destruct Hd as (HX & HY & HZ).
    rewrite <- (Z2Nat.id X), <- (Z2Nat.id Y), <- (Z2Nat.id Z) at 1 by lia.
    rewrite sample_nat, grid3_get3 by lia. done.
  - apply (sample_outside _ a b c); [apply grid3_shape|lia].
Qed.

Lemma sample_scale (k : num) (f : ScalarField3D) (a b c : nat) (X Y Z : Z) :
  has_shape f a b c ->
  sample (scale_field k f) X Y Z = (k * sample f X Y Z)%Qc.
Proof.
  intros Hf. rewrite (shape_as_grid3 f a b c Hf) at 1.
  rewrite scale_grid3, sample_grid3.
  case_decide as Hd.
  - by rewrite !Z2Nat.id by lia.
  - rewrite (sample_outside f a b c) by (done || lia). ring.
Qed.

Lemma sample_add (f g : ScalarField3D) (a b c : nat) (X Y Z : Z) :
  has_shape f a b c -> has_shape g a b c ->
  sample (add_field f g) X Y Z = (sample f X Y Z + sample g X Y Z)%Qc.
Proof.
  intros Hf Hg.
  rewrite (shape_as_grid3 f a b c Hf), (shape_as_grid3 g a b c Hg) at 1.
  rewrite add_grid3, sample_grid3.
  case_decide as Hd.
  - by rewrite !Z2Nat.id by lia.
  - rewrite (sample_outside f a b c), (sample_outside g a b c)
      by (done || lia). ring.
Qed.

Lemma scale_sim_shaped (k : num) (sim : FDTDSimulator) :
  shaped sim -> shaped (scale_sim k sim).
Proof.
  intros (? & ? & ? & ? & ? & ? & ? & ?).
  unfold shaped, well_shaped, scale_sim.
  cbn [data with_data electricFieldX electricFieldY electricFieldZ
       magneticFieldX magneticFieldY magneticFieldZ permittivity permeability].
  split_fields; try assumption; by apply scale_shape.
Qed.

Local Ltac unpack_shape H :=
  destruct H as (? & ? & ? & ? & ? & ? & ? & ?).

Lemma spec_stepMagnetic_scale (k : num) (sim : FDTDSimulator) (dt : num) :
  shaped sim ->
  spec_stepMagnetic (scale_sim k sim) dt =
  scale_sim k (spec_stepMagnetic sim dt).
Proof.
  intros Hs. unpack_shape Hs.
  unfold spec_stepMagnetic, scale_sim, with_data.
  cbn [data gridSize cellSize time electricFieldX electricFieldY
       electricFieldZ magneticFieldX magneticFieldY magneticFieldZ
       permittivity permeability].
  rewrite !scale_grid3.
  f_equal. f_equal; apply grid3_ext; intros x y z _ _ _;
    unfold spec_Hx, spec_Hy, spec_Hz;
    cbn [electricFieldX electricFieldY electricFieldZ
         magneticFieldX magneticFieldY magneticFieldZ];
    rewrite !(sample_scale k _ (dimX sim) (dimY sim) (dimZ sim)) by assumption;
    unfold Qcdiv; ring.
Qed.

Lemma spec_stepElectric_scale (k : num) (sim : FDTDSimulator) (dt : num) :
  shaped sim ->
  spec_stepElectric (scale_sim k sim) dt =
  scale_sim k (spec_stepElectric sim dt).
Proof.
  intros Hs. unpack_shape Hs.
  unfold spec_stepElectric, scale_sim, with_data.
  cbn [data gridSize cellSize time electricFieldX electricFieldY
       electricFieldZ magneticFieldX magneticFieldY magneticFieldZ
       permittivity permeability].
  rewrite !scale_grid3.
  f_equal. f_equal; apply grid3_ext; intros x y z _ _ _;
    unfold spec_Ex, spec_Ey, spec_Ez;
    cbn [electricFieldX electricFieldY electricFieldZ
         magneticFieldX magneticFieldY magneticFieldZ];
    rewrite !(sample_scale k _ (dimX sim) (dimY sim) (dimZ sim)) by assumption;
    unfold Qcdiv; ring.
Qed.

(** Scaling commutes with the half-steps: on a simulator whose fields have
    the grid's shape (cell size not zero), multiplying the six components by
    [k] before a half-step gives the outcome of the half-step with its six
    components multiplied by [k]. *)
Theorem half_steps_scale (k : num) (sim : FDTDSimulator) (dt : num) :
  shaped sim -> cellSize sim <> 0%Qc ->
  stepElectric (scale_sim k sim) dt =
    map_outcome (scale_sim k) (stepElectric sim dt) /\
  stepMagnetic (scale_sim k sim) dt =
    map_outcome (scale_sim k) (stepMagnetic sim dt).
Proof.
  intros Hs _. pose proof (scale_sim_shaped k sim Hs) as Hs'.
  split.
  - destruct (stepElectric_cases sim dt Hs) as [(Hy & Hz & ->)|[Hd ->]].
    + rewrite stepElectric_total by done. simpl.
      by rewrite spec_stepElectric_scale.
    + by rewrite stepElectric_degenerate.
  - destruct (stepMagnetic_cases sim dt Hs) as [(Hy & Hz & ->)|[Hd ->]].
    + rewrite stepMagnetic_total by done. simpl.
      by rewrite spec_stepMagnetic_scale.
    + by rewrite stepMagnetic_degenerate.
Qed.

Lemma half_steps_scale_witness :
  stepElectric (scale_sim (num_of_Z 3) magnetised_scene) one_tenth =
    map_outcome (scale_sim (num_of_Z 3))
                (stepElectric magnetised_scene one_tenth) /\
  stepMagnetic (scale_sim (num_of_Z 3) magnetised_scene) one_tenth =
    map_outcome (scale_sim (num_of_Z 3))
                (stepMagnetic magnetised_scene one_tenth).
Proof.
  apply (half_steps_scale (num_of_Z 3) magnetised_scene one_tenth).
  - unfold shaped, well_shaped, has_shape. vm_compute.
    split_fields; repeat constructor.
  - vm_compute. discriminate.
Defined.

Lemma add_sim_shaped (sim1 sim2 : FDTDSimulator) :
  shaped sim1 -> shaped sim2 -> gridSize sim1 = gridSize sim2 ->
  shaped (add_sim sim1 sim2).
Proof.
  intros H1 H2 Hg. destruct (same_grid_dims sim1 sim2 Hg) as (Dx & Dy & Dz).
  unfold shaped in H2. rewrite <- Dx, <- Dy, <- Dz in H2.
  unpack_shape H1. unpack_shape H2.
  unfold shaped, well_shaped, add_sim.
  cbn [data with_data electricFieldX electricFieldY electricFieldZ
       magneticFieldX magneticFieldY magneticFieldZ permittivity permeability].
  split_fields; try assumption; by apply add_shape.
Qed.

Lemma spec_stepMagnetic_add (sim1 sim2 : FDTDSimulator) (dt : num) :
  shaped sim1 -> shaped sim2 ->
  gridSize sim1 = gridSize sim2 -> cellSize sim1 = cellSize sim2 ->
  spec_stepMagnetic (add_sim sim1 sim2) dt =
  add_sim (spec_stepMagnetic sim1 dt) (spec_stepMagnetic sim2 dt).
Proof.
  intros H1 H2 Hg Hc. destruct (same_grid_dims sim1 sim2 Hg) as (Dx & Dy & Dz).
  unfold shaped in H2. rewrite <- Dx, <- Dy, <- Dz in H2.
  unpack_shape H1. unpack_shape H2.
  unfold spec_stepMagnetic, add_sim, with_data.
  cbn [data gridSize cellSize time electricFieldX electricFieldY
       electricFieldZ magneticFieldX magneticFieldY magneticFieldZ
       permittivity permeability].
  rewrite <- Dx, <- Dy, <- Dz, <- Hc, !add_grid3.
  f_equal. f_equal; apply grid3_ext; intros x y z _ _ _;
    unfold spec_Hx, spec_Hy, spec_Hz;
    cbn [electricFieldX electricFieldY electricFieldZ
         magneticFieldX magneticFieldY magneticFieldZ];
    rewrite !(sample_add _ _ (dimX sim1) (dimY sim1) (dimZ sim1))
      by assumption;
    unfold Qcdiv; ring.
Qed.

Lemma spec_stepElectric_add (sim1 sim2 : FDTDSimulator) (dt : num) :
  shaped sim1 -> shaped sim2 ->
  gridSize sim1 = gridSize sim2 -> cellSize sim1 = cellSize sim2 ->
  spec_stepElectric (add_sim sim1 sim2) dt =
  add_sim (spec_stepElectric sim1 dt) (spec_stepElectric sim2 dt).
Proof.
  intros H1 H2 Hg Hc. destruct (same_grid_dims sim1 sim2 Hg) as (Dx & Dy & Dz).
  unfold shaped in H2. rewrite <- Dx, <- Dy, <- Dz in H2.
  unpack_shape H1. unpack_shape H2.
  unfold spec_stepElectric, add_sim, with_data.
  cbn [data gridSize cellSize time electricFieldX electricFieldY
       electricFieldZ magneticFieldX magneticFieldY magneticFieldZ
       permittivity permeability].
  rewrite <- Dx, <- Dy, <- Dz, <- Hc, !add_grid3.
  f_equal. f_equal; apply grid3_ext; intros x y z _ _ _;
    unfold spec_Ex, spec_Ey, spec_Ez;
    cbn [electricFieldX electricFieldY electricFieldZ
         magneticFieldX magneticFieldY magneticFieldZ];
    rewrite !(sample_add _ _ (dimX sim1) (dimY sim1) (dimZ sim1))
      by assumption;
    unfold Qcdiv; ring.
Qed.

(** Superposition: for two simulators of one grid and one cell size (not
    zero) whose fields have the grid's shape, a half-step on the cell-wise
    sum of their six components gives the cell-wise sum of the outcomes of
    the half-step on each. *)
Theorem half_steps_add (sim1 sim2 : FDTDSimulator) (dt : num) :
  shaped sim1 -> shaped sim2 ->
  gridSize sim1 = gridSize sim2 -> cellSize sim1 = cellSize sim2 ->
  cellSize sim1 <> 0%Qc ->
  state_of (stepElectric (add_sim sim1 sim2) dt) =
    add_sim (state_of (stepElectric sim1 dt))
            (state_of (stepElectric sim2 dt)) /\
  completed (stepElectric (add_sim sim1 sim2) dt) =
    completed (stepElectric sim1 dt) /\
  state_of (stepMagnetic (add_sim sim1 sim2) dt) =
    add_sim (state_of (stepMagnetic sim1 dt))
            (state_of (stepMagnetic sim2 dt)) /\
  completed (stepMagnetic (add_sim sim1 sim2) dt) =
    completed (stepMagnetic sim1 dt).
Proof.
  intros H1 H2 Hg Hc _.
  pose proof (add_sim_shaped sim1 sim2 H1 H2 Hg) as H12.
  destruct (same_grid_dims sim1 sim2 Hg) as (Dx & Dy & Dz).
  assert (dimY (add_sim sim1 sim2) = dimY sim1) as Ey by reflexivity.
  assert (dimZ (add_sim sim1 sim2) = dimZ sim1) as Ez by reflexivity.
  assert (state_of (stepElectric (add_sim sim1 sim2) dt) =
            add_sim (state_of (stepElectric sim1 dt))
                    (state_of (stepElectric sim2 dt)) /\
          completed (stepElectric (add_sim sim1 sim2) dt) =
            completed (stepElectric sim1 dt)) as [He1 He2].
  { destruct (stepElectric_cases sim1 dt H1) as [(Hy & Hz & ->)|[Hd ->]].
    - rewrite (stepElectric_total sim2), (stepElectric_total (add_sim _ _))
        by (done || lia).
      split; [|done]. simpl. by apply spec_stepElectric_add.
    - rewrite (stepElectric_degenerate sim2),
        (stepElectric_degenerate (add_sim _ _)) by lia. done. }
  assert (state_of (stepMagnetic (add_sim sim1 sim2) dt) =
            add_sim (state_of (stepMagnetic sim1 dt))
                    (state_of (stepMagnetic sim2 dt)) /\
          completed (stepMagnetic (add_sim sim1 sim2) dt) =
            completed (stepMagnetic sim1 dt)) as [Hm1 Hm2].
  { destruct (stepMagnetic_cases sim1 dt H1) as [(Hy & Hz & ->)|[Hd ->]].
    - rewrite (stepMagnetic_total sim2), (stepMagnetic_total (add_sim _ _))
        by (done || lia).
      split; [|done]. simpl. by apply spec_stepMagnetic_add.
    - rewrite (stepMagnetic_degenerate sim2),
        (stepMagnetic_degenerate (add_sim _ _)) by lia. done. }
  by split_fields.
Qed.

Lemma half_steps_add_witness :
  state_of (stepElectric (add_sim magnetised_scene boundary_scene) one_tenth) =
    add_sim (state_of (stepElectric magnetised_scene one_tenth))
            (state_of (stepElectric boundary_scene one_tenth)) /\
  completed (stepElectric (add_sim magnetised_scene boundary_scene) one_tenth)
    = completed (stepElectric magnetised_scene one_tenth) /\
  state_of (stepMagnetic (add_sim magnetised_scene boundary_scene) one_tenth) =
    add_sim (state_of (stepMagnetic magnetised_scene one_tenth))
            (state_of (stepMagnetic boundary_scene one_tenth)) /\
  completed (stepMagnetic (add_sim magnetised_scene boundary_scene) one_tenth)
    = completed (stepMagnetic magnetised_scene one_tenth).
Proof.
  apply (half_steps_add magnetised_scene boundary_scene one_tenth).
  - unfold shaped, well_shaped, has_shape. vm_compute.
    split_fields; repeat constructor.
  - unfold shaped, well_shaped, has_shape. vm_compute.
    split_fields; repeat constructor.
  - reflexivity.
  - reflexivity.
  - vm_compute. discriminate.
Defined.

(** ** Time over a sequence of calls *)




(** ** A half-step that throws *)

(** A half-step that throws leaves the time as it was: the time is advanced
    by the last statement only.  Whether it throws or returns, the captured
    grid size and cell size are kept. *)
Theorem failed_step_keeps_time (c : call) (sim sim' : FDTDSimulator) :
  perform c sim = Threw sim' ->
  time (data sim') = time (data sim) /\
  gridSize sim' = gridSize sim /\ cellSize sim' = cellSize sim.
Proof.
  destruct c as [dt|dt]; simpl; unfold stepElectric, stepMagnetic, assign;
    repeat (match goal with |- context [launch ?k ?s ?a ?b ?c ?t] =>
              destruct (launch k s a b c t) end; simpl);
    intros [= <-]; split_fields; reflexivity.
Qed.

Lemma failed_step_keeps_time_witness :
  time (data (initial (2, 0, 2)%Z (num_of_Z 1))) =
    time (data (initial (2, 0, 2)%Z (num_of_Z 1))) /\
  gridSize (initial (2, 0, 2)%Z (num_of_Z 1)) =
    gridSize (initial (2, 0, 2)%Z (num_of_Z 1)) /\
  cellSize (initial (2, 0, 2)%Z (num_of_Z 1)) =
    cellSize (initial (2, 0, 2)%Z (num_of_Z 1)).
Proof.
  apply (failed_step_keeps_time (StepElectric one_tenth)
           (initial (2, 0, 2)%Z (num_of_Z 1))).
  reflexivity.
Defined.

(** ** Undoing a half-step *)






(** ** Half-steps of one family in a row *)








